(** * Chunked demographic aggregation (CodigoPararelaMain.py)

    A shallow embedding of the map/reduce pipeline of
    [CodigoPararelaMain.py]: the per-chunk aggregation [procesar_chunk],
    the quinquennial classifier [clasificar_grupo_5anios] and the
    reduction [combinar_resultados].

    Modelling conventions.
    - A row of the CSV file is a [Fila]; the postal codes are the strings
      obtained by [astype(str)], the birth date is reduced to its year
      ([None] when [pd.to_datetime(..., errors="coerce")] yields NaT).
    - Python [int]s are [Z]; a nullable age is [option Z].
    - A Python [dict] whose iteration order is not observed by the function
      under study is a [gmap]; [viajes_total], whose insertion order is
      observed by the stable [sorted] call, is an association list.
    - A pandas [Series] of counts is a [gmap] into [option Z], [None] being
      NaN.
    - An exception raised by the Python code is a [Raise] result.
    - A [float] is the rational number it denotes: [a / b] on integers is
      the quotient rounded to 53 significant bits, ties to the even
      significand (the exponent range of binary64 is left unbounded), and
      [round(x, n)] rounds the value of [x] to [n] decimals, halves to
      even; the decimal it yields stands for the [float] nearest to it.
    - [procesar_chunk] is the aggregation of a chunk that holds at least
      one row; on a chunk without rows line 38 raises [TypeError], which
      [ejecutar], the run of the main block, accounts for.
    - A column of postal codes that are all integers is read as [int64]
      and grouped in numeric order, any other column in text order. A
      flow is keyed by the text of its two codes; [read_csv] infers the
      dtype of a column chunk by chunk, and a code that one chunk reads as
      an integer and another as text, which makes two keys in
      [viajes_total], is not told apart here. *)

From Stdlib Require Import ZArith QArith Qabs Lia.
From Stdlib Require Import Strings.String Strings.Ascii Numbers.DecimalString.
From Stdlib Require Numbers.DecimalZ Numbers.DecimalPos.
From Stdlib Require Import Sorting.Permutation Sorting.Sorted.
From stdpp Require Import gmap strings list fin_maps sorting.

Local Open Scope Z_scope.

(** ** Record normalisation *)

Module Normalizador.

(** [str(n)] for a Python integer. *)
Definition py_str (n : Z) : string :=
  NilZero.string_of_int (Z.to_int n).

(** The nested function [clasificar_edad] of [procesar_chunk]
    (lines 28-33); [None] is [pd.isna(e)]. *)
Definition clasificar_edad (e : option Z) : option string :=
  match e with
  | None => None
  | Some e =>
      if e <? 18 then Some "0-17"%string
      else if e <=? 35 then Some "18-35"%string
      else if e <=? 60 then Some "36-60"%string
      else Some "61+"%string
  end.

(** [clasificar_grupo_5anios] (lines 57-64). [edad // 5] is floor
    division, which is [Z.div]. *)
Definition clasificar_grupo_5anios (edad : option Z) : option string :=
  match edad with
  | None => None
  | Some edad =>
      if edad <? 0 then None
      else if edad >=? 90 then Some "90+"%string
      else
        let base := (edad / 5) * 5 in
        Some (String.append (py_str base)
                (String.append "-" (py_str (base + 4))))
  end.

End Normalizador.

Import Normalizador.

(** ** Data model *)

(** A raw row of a chunk: the columns read by [procesar_chunk].
    [genero] is the column GENERO once lines 11-12 have renamed its
    accented variant. *)
Record Fila := {
  cp_origen : string;
  cp_destino : string;
  anio_nacimiento : option Z;
  especie : string;
  genero : string
}.

(** One entry of [edad_stats]: a row of the
    [groupby(["ESPECIE","GENERO"])["edad"].agg(["mean","median"])] table. *)
Record EdadStat := {
  es_especie : string;
  es_genero : string;
  es_mean : Q;
  es_median : Q
}.

(** A pandas [Series] of counts: index to value, [None] standing for NaN. *)
Abbreviation Serie := (gmap (string * string) (option Z)).

(** The tuple returned by [procesar_chunk] (line 55). *)
Record Parcial := {
  p_estrato : gmap string Z;
  p_edades : list EdadStat;
  p_tramos : gmap (string * string * string) Z;
  p_dependencia : Z * Z;
  p_viajes : list (string * string * Z);
  p_piramide : Serie
}.

(** The dictionary returned by [combinar_resultados] (lines 95-103). *)
Record Final := {
  conteo_estrato : gmap string Z;
  porcentaje_estrato : gmap string Q;
  edad_estadisticas : list EdadStat;
  tramos : gmap (string * string * string) Z;
  indice_dependencia : option Q;
  top_viajes : list (string * string * Z);
  piramide_edades : Serie
}.

Inductive Excepcion := ZeroDivisionError | AttributeError | TypeError.

Inductive Resultado (A : Type) :=
  | Ok (a : A)
  | Raise (e : Excepcion).
Arguments Ok {A} a.
Arguments Raise {A} e.

(** ** Python and pandas primitives *)

Module Py.

(** [d[k] += v] on a [defaultdict(int)]. *)
Definition dict_add `{Countable K} (k : K) (v : Z) (d : gmap K Z) : gmap K Z :=
  <[k := default 0 (d !! k) + v]> d.

(** [for k, v in src.items(): total[k] += v]. *)
Definition sumar_items `{Countable K} (src : list (K * Z)) (total : gmap K Z) : gmap K Z :=
  foldl (λ d kv, dict_add kv.1 kv.2 d) total src.

Definition sumar_dict `{Countable K} (src total : gmap K Z) : gmap K Z :=
  sumar_items (map_to_list src) total.

(** [sum(d.values())]. *)
Definition suma_valores `{Countable K} (d : gmap K Z) : Z :=
  foldr Z.add 0 (map_to_list d).*2.

(** The number of rows per key: [value_counts()] and
    [groupby(...).size()] seen as a dictionary. *)
Definition contar `{Countable K} (l : list K) : gmap K Z :=
  foldl (λ d k, dict_add k 1 d) ∅ l.

(** [d[k] += v] on a [defaultdict(int)] whose insertion order is kept:
    an existing key is updated in place, a new key goes last. *)
Fixpoint odict_add {K} `{EqDecision K} (k : K) (v : Z) (d : list (K * Z)) : list (K * Z) :=
  match d with
  | [] => [(k, 0 + v)]
  | (k', v') :: d' =>
      if decide (k = k') then (k', v' + v) :: d'
      else (k', v') :: odict_add k v d'
  end.

Fixpoint odict_get {K} `{EqDecision K} (k : K) (d : list (K * Z)) : option Z :=
  match d with
  | [] => None
  | (k', v') :: d' => if decide (k = k') then Some v' else odict_get k d'
  end.

(** Rounding of the quotient [n / d] ([0 < d]) to the nearest integer,
    halves to the even neighbour. *)
Definition redondear_div (n d : Z) : Z :=
  let q := n / d in
  let r := n mod d in
  if 2 * r <? d then q
  else if d <? 2 * r then q + 1
  else if Z.even q then q else q + 1.

(** [round(x, ndigits)] on a [float]: the value of [x] rounded to
    [ndigits] decimals, a value halfway between two of them going to the
    even one. The result is held as the decimal itself. *)
Definition round (x : Q) (ndigits : Z) : Q :=
  let p := 10 ^ ndigits in
  Qmake (redondear_div (Qnum x * p) (Zpos (Qden x))) (Z.to_pos p).

(** [2 ^ e] as the fraction [pow2_num e / pow2_den e], for an exponent
    of either sign. *)
Definition pow2_num (e : Z) : Z := 2 ^ Z.max e 0.
Definition pow2_den (e : Z) : Z := 2 ^ Z.max (- e) 0.

(** The exponent of the last significant bit of the [float] nearest to
    [n / d] ([0 < n], [0 < d]): the [e] with
    [2^52 <= (n / d) / 2^e < 2^53]. *)
Definition exponente (n d : Z) : Z :=
  let e := Z.log2 n - Z.log2 d - 52 in
  if 2 ^ 52 * (d * pow2_num e) <=? n * pow2_den e then e else e - 1.

(** The [float] nearest to [n / d] ([0 < n], [0 < d]): a significand of
    53 bits, rounded halves to even, times [2 ^ exponente n d]. *)
Definition binary64_div (n d : Z) : Q :=
  let e := exponente n d in
  Qmake (redondear_div (n * pow2_den e) (d * pow2_num e) * pow2_num e)
        (Z.to_pos (pow2_den e)).

(** [a / b] on integers, for [b <> 0]: the [float] nearest to the
    quotient. *)
Definition truediv (a b : Z) : Q :=
  if a =? 0 then 0%Q
  else
    let x := binary64_div (Z.abs a) (Z.abs b) in
    if Z.sgn a * Z.sgn b <? 0 then Qopp x else x.

(** [sorted(items, key=lambda x: x[1], reverse=True)]: a stable sort,
    larger counts first, equal counts in their original order. *)
Fixpoint insertar_desc {K} (x : K * Z) (l : list (K * Z)) : list (K * Z) :=
  match l with
  | [] => [x]
  | y :: l' => if x.2 <? y.2 then y :: insertar_desc x l' else x :: y :: l'
  end.

Definition sorted_desc {K} (l : list (K * Z)) : list (K * Z) :=
  foldr insertar_desc [] l.

(** Addition of two [Series]: the indexes are aligned on their union and
    a label missing on either side yields NaN. The counts are added as
    integers, which is what pandas computes as long as they stay below
    [2^53]. *)
Definition serie_add (s1 s2 : Serie) : Serie :=
  merge (λ a b,
    match a, b with
    | Some (Some x), Some (Some y) => Some (Some (x + y))
    | None, None => None
    | _, _ => Some None
    end) s1 s2.

(** [sum(series)]: the fold starts from the integer [0], to which the
    first series is added elementwise; an empty list yields the integer
    [0] itself, rendered here as [None]. *)
Definition sum_series (l : list Serie) : option Serie :=
  match l with
  | [] => None
  | s :: l' => Some (foldl serie_add s l')
  end.

Section Groupby.
Context {K V : Type} (cmp : K → K → comparison).

Fixpoint agregar_fila (k : K) (v : V) (gs : list (K * list V)) : list (K * list V) :=
  match gs with
  | [] => [(k, [v])]
  | (k', vs) :: gs' =>
      match cmp k k' with
      | Eq => (k', vs ++ [v]) :: gs'
      | Lt => (k, [v]) :: gs
      | Gt => (k', vs) :: agregar_fila k v gs'
      end
  end.

(** [df.groupby(keys)]: the groups in increasing key order, each with
    its rows in their original order. *)
Definition groupby (rows : list (K * V)) : list (K * list V) :=
  foldl (λ gs kv, agregar_fila kv.1 kv.2 gs) [] rows.
End Groupby.

(** Lexicographic comparison of tuples of strings. *)
Definition cmp_par (a b : string * string) : comparison :=
  match String.compare a.1 b.1 with
  | Eq => String.compare a.2 b.2
  | c => c
  end.

(** The integer that a code stands for, when it is the decimal writing
    of one. *)
Definition valor_entero (s : string) : option Z :=
  Z.of_int <$> NilZero.int_of_string s.

(** [s] is [str(n)] for an [int64] [n]. *)
Definition es_entero (s : string) : bool :=
  match valor_entero s with
  | Some n => String.eqb (py_str n) s && (- 2 ^ 63 <=? n) && (n <? 2 ^ 63)
  | None => false
  end.

(** [read_csv] gives a column the dtype [int64] when every code in it is
    an integer, and keeps the codes as text otherwise. *)
Definition columna_entera (col : list string) : bool := forallb es_entero col.

(** Comparison of two codes by the integers they stand for, and by
    their text when these are equal: on codes that are integers, the
    order of the integers. *)
Definition cmp_entero (a b : string) : comparison :=
  match Z.compare (default 0 (valor_entero a)) (default 0 (valor_entero b)) with
  | Eq => String.compare a b
  | c => c
  end.

(** The order of the keys of a column: numeric for an [int64] column,
    otherwise that of the text. *)
Definition cmp_columna (entera : bool) : string → string → comparison :=
  if entera then cmp_entero else String.compare.

(** The order in which [groupby(["CP ORIGEN", "CP DESTINO"])] yields its
    groups: by origin, then by destination, each in the order of its
    column. *)
Definition cmp_viaje (origen_entero destino_entero : bool)
    (a b : string * string) : comparison :=
  match cmp_columna origen_entero a.1 b.1 with
  | Eq => cmp_columna destino_entero a.2 b.2
  | c => c
  end.

(** Ascending insertion sort on integers, for the median. *)
Fixpoint insertar_asc (x : Z) (l : list Z) : list Z :=
  match l with
  | [] => [x]
  | y :: l' => if x <=? y then x :: l else y :: insertar_asc x l'
  end.

Definition sort_asc (l : list Z) : list Z := foldr insertar_asc [] l.

(** [mean] of a non-empty list of ages. *)
Definition mean (xs : list Z) : Q :=
  Qmake (foldr Z.add 0 xs) (Pos.of_nat (length xs)).

(** [median] of a non-empty list of ages: the middle value, or the
    half-sum of the two middle values. *)
Definition median (xs : list Z) : Q :=
  let s := sort_asc xs in
  let n := length s in
  if Nat.even n
  then Qmake (nth (n / 2 - 1) s 0 + nth (n / 2) s 0) 2
  else inject_Z (nth (n / 2) s 0).

End Py.

(** ** The chunk aggregator *)

(** Line 16: [datetime.now().year - x.year], or [None] for a missing or
    unparseable birth date. [anio] is the current year. *)
Definition edad_de (anio : Z) (f : Fila) : option Z :=
  (λ y, anio - y) <$> anio_nacimiento f.

(** Line 14: the first character of the origin code; an empty code has
    none and is dropped by [value_counts]. *)
Definition estrato_de (f : Fila) : option string :=
  match cp_origen f with
  | EmptyString => None
  | String c _ => Some (String c EmptyString)
  end.

(** [chunk[cond(chunk["edad"])].shape[0]]: a comparison with a missing
    age is false. *)
Definition contar_si (cond : Z → bool) (edades : list (option Z)) : Z :=
  Z.of_nat (length (List.filter (λ e, from_option cond false e) edades)).

(** One group of lines 20-26: [mean] and [median] skip the missing ages,
    and [dropna] removes the group when no age is left. *)
Definition stats_de_grupo (g : string * string * list (option Z)) : option EdadStat :=
  match omap id g.2 with
  | [] => None
  | xs => Some {| es_especie := g.1.1; es_genero := g.1.2;
                  es_mean := Py.mean xs; es_median := Py.median xs |}
  end.

(** [procesar_chunk] (lines 10-55), for a chunk that holds at least one
    row. (On a chunk without rows the column [edad] keeps the dtype of
    the dates and the comparison of line 38 raises [TypeError]: see
    [ejecutar].) *)
Definition procesar_chunk (anio : Z) (chunk : list Fila) : Parcial :=
  let edad := edad_de anio in
  let conteo_estrato := Py.contar (omap estrato_de chunk) in
  let edad_stats :=
    omap stats_de_grupo
      (Py.groupby Py.cmp_par ((λ f, (especie f, genero f, edad f)) <$> chunk)) in
  let tramos :=
    Py.contar
      (omap (λ f, (λ t, (especie f, genero f, t)) <$> clasificar_edad (edad f)) chunk) in
  let menores_15 := contar_si (λ e, e <? 15) (edad <$> chunk) in
  let mayores_64 := contar_si (λ e, 64 <? e) (edad <$> chunk) in
  let edad_trabajo := contar_si (λ e, (15 <=? e) && (e <=? 64)) (edad <$> chunk) in
  let viajes :=
    (λ g : string * string * list (), (g.1.1, g.1.2, Z.of_nat (length g.2))) <$>
      Py.groupby
        (Py.cmp_viaje (Py.columna_entera (cp_origen <$> chunk))
                      (Py.columna_entera (cp_destino <$> chunk)))
        ((λ f, (cp_origen f, cp_destino f, ())) <$> chunk) in
  let piramide : Serie :=
    Some <$> Py.contar
      (omap (λ f, (λ g, (g, genero f)) <$> clasificar_grupo_5anios (edad f)) chunk) in
  {| p_estrato := conteo_estrato;
     p_edades := edad_stats;
     p_tramos := tramos;
     p_dependencia := (menores_15 + mayores_64, edad_trabajo);
     p_viajes := viajes;
     p_piramide := piramide |}.

(** ** The combiner *)

(** The local variables of [combinar_resultados] (lines 68-74). *)
Record Acumulador := {
  total_estrato : gmap string Z;
  edad_registros : list EdadStat;
  tramos_total : gmap (string * string * string) Z;
  dep_numerador : Z;
  dep_denominador : Z;
  viajes_total : list (string * string * Z);
  piramide_total : list Serie
}.

Definition acumulador_inicial : Acumulador :=
  {| total_estrato := ∅; edad_registros := []; tramos_total := ∅;
     dep_numerador := 0; dep_denominador := 0;
     viajes_total := []; piramide_total := [] |}.

(** Lines 86-87. *)
Definition sumar_viajes (viajes total : list (string * string * Z)) : list (string * string * Z) :=
  foldl (λ d v, Py.odict_add v.1 v.2 d) total viajes.

(** One iteration of the loop of lines 76-88. *)
Definition acumular (a : Acumulador) (res : Parcial) : Acumulador :=
  {| total_estrato := Py.sumar_dict (p_estrato res) (total_estrato a);
     edad_registros := edad_registros a ++ p_edades res;
     tramos_total := Py.sumar_dict (p_tramos res) (tramos_total a);
     dep_numerador := dep_numerador a + (p_dependencia res).1;
     dep_denominador := dep_denominador a + (p_dependencia res).2;
     viajes_total := sumar_viajes (p_viajes res) (viajes_total a);
     piramide_total := piramide_total a ++ [p_piramide res] |}.

(** The bound of the slice [[:10000]] (line 92). *)
Definition TOP_K : nat := Z.to_nat 10000.

(** [combinar_resultados] (lines 67-103). The division of line 91 raises
    when the population is zero and some stratum exists; [reset_index]
    (line 102) raises on the integer that [sum] returns for no partial
    aggregate at all. *)
Definition combinar_resultados (resultados : list Parcial) : Resultado Final :=
  let a := foldl acumular acumulador_inicial resultados in
  let total_poblacion := Py.suma_valores (total_estrato a) in
  if negb (bool_decide (total_estrato a = ∅)) && (total_poblacion =? 0)
  then Raise ZeroDivisionError
  else
    let porcentaje_estrato :=
      (λ v, Py.round (Py.truediv (v * 100) total_poblacion) 2) <$> total_estrato a in
    let top_10k := take TOP_K (Py.sorted_desc (viajes_total a)) in
    match Py.sum_series (piramide_total a) with
    | None => Raise AttributeError
    | Some piramide_final =>
        Ok {| conteo_estrato := total_estrato a;
              porcentaje_estrato := porcentaje_estrato;
              edad_estadisticas := edad_registros a;
              tramos := tramos_total a;
              indice_dependencia :=
                if 0 <? dep_denominador a
                then Some (Py.round (Py.truediv (dep_numerador a) (dep_denominador a)) 3)
                else None;
              top_viajes := top_10k;
              piramide_edades := piramide_final |}
    end.

(** ** The run *)

(** Line 129, [pool.map(procesar_chunk, reader)]: the partial aggregates
    of the chunks, in the order of the chunks; the [TypeError] that
    [procesar_chunk] raises on a chunk without rows is raised again by
    [pool.map]. *)
Definition pool_map_procesar_chunk (anio : Z) (chunks : list (list Fila)) :
    Resultado (list Parcial) :=
  if forallb (λ c, negb (bool_decide (c = []))) chunks
  then Ok (procesar_chunk anio <$> chunks)
  else Raise TypeError.

(** Lines 129-133: the aggregation of the chunks followed by the
    combiner. *)
Definition ejecutar (anio : Z) (chunks : list (list Fila)) : Resultado Final :=
  match pool_map_procesar_chunk anio chunks with
  | Ok resultados => combinar_resultados resultados
  | Raise e => Raise e
  end.

(** ** The chart *)

(** The part of [graficar_piramide] (lines 105-123) that orders the age
    groups on the vertical axis (line 107). *)
Module Grafico.

(** ["-" in x]. *)
Fixpoint contiene_guion (x : string) : bool :=
  match x with
  | EmptyString => false
  | String c x' => Ascii.eqb c "-" || contiene_guion x'
  end.

(** [x.split("-")[0]]: the characters before the first hyphen. *)
Fixpoint antes_del_guion (x : string) : string :=
  match x with
  | EmptyString => EmptyString
  | String c x' => if Ascii.eqb c "-" then EmptyString else String c (antes_del_guion x')
  end.

(** [int(s)] for a non-empty string of ASCII decimal digits. Any other
    string gives [None]; the strings that [int] accepts beyond plain
    digits (sign, blanks, underscores) are outside this definition. *)
Definition py_int (s : string) : option Z :=
  (λ d, Z.of_uint d) <$> NilZero.uint_of_string s.

(** The sort key of line 107:
    [int(x.split("-")[0]) if "-" in x else 90]. *)
Definition clave_grupo (x : string) : option Z :=
  if contiene_guion x then py_int (antes_del_guion x) else Some 90.

(** Stable insertion in increasing order of key. *)
Fixpoint insertar_por_clave (x : string * Z) (l : list (string * Z)) : list (string * Z) :=
  match l with
  | [] => [x]
  | y :: l' => if y.2 <? x.2 then y :: insertar_por_clave x l' else x :: y :: l'
  end.

(** [grupos = sorted(pivot.index, key=...)], when every key is defined. *)
Definition grupos (indice : list string) : option (list string) :=
  (λ ks, (foldr insertar_por_clave [] ks).*1)
    <$> mapM (λ x, (λ k, (x, k)) <$> clave_grupo x) indice.

End Grafico.

(** ** The report *)


(** ** Sample runs *)

Module Ejemplos.

Definition fila (o d : string) (nac : option Z) (e g : string) : Fila :=
  {| cp_origen := o; cp_destino := d; anio_nacimiento := nac; especie := e; genero := g |}.

(** The scenario dataset: ages 10, 40, 70 and a missing one, in 2025. *)
Definition escenario : list Fila :=
  [ fila "1000" "2000" (Some 2015) "A" "M";
    fila "1000" "2000" (Some 1985) "A" "M";
    fila "2000" "1000" (Some 1955) "A" "F";
    fila "3000" "1000" None "A" "F" ].

(** Two rows of the same (species, gender), aged 10 and 40 in 2025, with
    opposite flows. *)
Definition r_2000_1000 : Fila := fila "2000" "1000" (Some 2015) "A" "M".
Definition r_1000_2000 : Fila := fila "1000" "2000" (Some 1985) "A" "M".

(** Five rows of one group, aged 10, 20 and 90 in the first chunk and
    40 and 50 in the second. *)
Definition chunks_mediana : list (list Fila) :=
  [ [ fila "1000" "2000" (Some 2015) "A" "M";
      fila "1000" "2000" (Some 2005) "A" "M";
      fila "1000" "2000" (Some 1935) "A" "M" ];
    [ fila "1000" "2000" (Some 1985) "A" "M";
      fila "1000" "2000" (Some 1975) "A" "M" ] ].

(** Two chunks of one row each, aged 3 and 7 in 2025. *)
Definition chunks_piramide : list (list Fila) :=
  [ [ fila "1000" "2000" (Some 2022) "A" "MACHO" ];
    [ fila "1000" "2000" (Some 2018) "A" "MACHO" ] ].

(** One child aged 10 and three adults aged 30, 40 and 50. *)
Definition chunks_dependencia : list (list Fila) :=
  [ [ fila "1000" "2000" (Some 2015) "A" "M";
      fila "1000" "2000" (Some 1995) "A" "M" ];
    [ fila "1000" "2000" (Some 1985) "A" "M";
      fila "1000" "2000" (Some 1975) "A" "M" ] ].

(** Thirty-one rows whose origin codes start with thirty-one different
    characters. *)
Definition chunk_31_estratos : list Fila :=
  (λ c, fila (String c "000") "1000" None "A" "M")
    <$> list_ascii_of_string "ABCDEFGHIJKLMNOPQRSTUVWXYZabcde".

End Ejemplos.

(** ** Specification vocabulary *)

(** The value read from a counting dictionary, [0] for an absent key. *)
Definition cuenta `{Countable K} (d : gmap K Z) (k : K) : Z := default 0 (d !! k).

(** Number of occurrences of [k] in [l]. *)
Definition ocurrencias `{EqDecision K} (k : K) (l : list K) : Z :=
  Z.of_nat (length (filter (k =.) l)).

(** The entry a counting dictionary built from [l] holds for [k]. *)
Definition entrada `{EqDecision K} (k : K) (l : list K) : option Z :=
  if decide (k ∈ l) then Some (ocurrencias k l) else None.

(** Sum of two optional counts, an absent one counting for nothing. *)
Definition mas (a b : option Z) : option Z :=
  match a, b with
  | Some x, Some y => Some (x + y)
  | Some x, None => Some x
  | None, Some y => Some (0 + y)
  | None, None => None
  end.

(** The state of the accumulators once every chunk has been processed
    and merged. *)
Definition acumulado (anio : Z) (chunks : list (list Fila)) : Acumulador :=
  foldl acumular acumulador_inicial (procesar_chunk anio <$> chunks).

(** The bracket keys of the rows of a dataset that have an age. *)
Definition claves_tramo (anio : Z) (c : list Fila) : list (string * string * string) :=
  omap (λ f, (λ t, (especie f, genero f, t)) <$> clasificar_edad (edad_de anio f)) c.

(** The flow keys of the rows of a dataset. *)
Definition claves_viaje (c : list Fila) : list (string * string) :=
  (λ f, (cp_origen f, cp_destino f)) <$> c.

(** The order in which a chunk lists its flows: that of its two columns
    of codes. *)
Definition orden_viajes (c : list Fila) : string * string → string * string → comparison :=
  Py.cmp_viaje (Py.columna_entera (cp_origen <$> c))
               (Py.columna_entera (cp_destino <$> c)).

(** Every postal code of the dataset is an integer: every chunk then
    reads its two columns of codes as [int64]. *)
Definition codigos_enteros (l : list Fila) : Prop :=
  Forall (λ r, Py.es_entero (cp_origen r) = true ∧ Py.es_entero (cp_destino r) = true) l.

(** The pyramid keys of the rows of a dataset that have a valid age. *)
Definition claves_piramide (anio : Z) (c : list Fila) : list (string * string) :=
  omap (λ f, (λ g, (g, genero f)) <$> clasificar_grupo_5anios (edad_de anio f)) c.

(** The summed count a list of flow triples holds for [k]. *)
Fixpoint total_viajes {K} `{EqDecision K} (k : K) (vs : list (K * Z)) : option Z :=
  match vs with
  | [] => None
  | v :: vs' => if decide (v.1 = k) then mas (Some v.2) (total_viajes k vs') else total_viajes k vs'
  end.

(** The number of rows a list of groups holds for [k]. *)
Fixpoint total_grupos {K V} `{EqDecision K} (k : K) (gs : list (K * list V)) : option Z :=
  match gs with
  | [] => None
  | g :: gs' =>
      if decide (g.1 = k) then mas (Some (Z.of_nat (length g.2))) (total_grupos k gs')
      else total_grupos k gs'
  end.

(** Descending order on counts. *)
Definition desc {K} (x y : K * Z) : Prop := y.2 ≤ x.2.

(** A field of the returned dictionary, when the call returns. *)
Definition campo {A} (g : Final → A) (r : Resultado Final) : option A :=
  match r with
  | Ok f => Some (g f)
  | Raise _ => None
  end.

(** The sum of the reported percentages. *)
Definition suma_porcentajes (m : gmap string Q) : Q :=
  foldr Qplus 0%Q (map_to_list m).*2.

(** The strata of the rows of a dataset that have one. *)
Definition estratos (c : list Fila) : list string := omap estrato_de c.

(** The ages of the rows of a dataset that have one. *)
Definition edades_validas (anio : Z) (c : list Fila) : list Z := omap (edad_de anio) c.

(** The rows of a (species, gender) group. *)
Definition filas_de_grupo (k : string * string) (c : list Fila) : list Fila :=
  filter (λ f, (especie f, genero f) = k) c.

(** The (species, gender) of an entry of the age statistics. *)
Definition clave_stat (s : EdadStat) : string * string := (es_especie s, es_genero s).

(** The rows a grouped table holds under [k]. *)
Fixpoint grupo_de {K V} `{EqDecision K} (k : K) (gs : list (K * list V)) : option (list V) :=
  match gs with
  | [] => None
  | g :: gs' => if decide (g.1 = k) then Some g.2 else grupo_de k gs'
  end.

(** Strictly increasing keys, for a comparison function [cmp]. *)
Definition menor {K V} (cmp : K → K → comparison) (g1 g2 : K * V) : Prop :=
  cmp g1.1 g2.1 = Lt.

(** The sum of the values of a list of cells that are all numbers. *)
Fixpoint numeros (os : list (option (option Z))) : option Z :=
  match os with
  | [] => Some 0
  | Some (Some x) :: os' => (λ t, x + t) <$> numeros os'
  | _ :: _ => None
  end.

(** What adding up the cells of one label yields: nothing when no series
    has the label, their sum when every series holds a number under it,
    NaN otherwise. *)
Definition resumen (os : list (option (option Z))) : option (option Z) :=
  if decide (Forall (λ o, o = None) os) then None
  else match numeros os with
       | Some t => Some (Some t)
       | None => Some None
       end.

(** ** Counting dictionaries *)

Section Diccionarios.
Context `{Countable K}.
Implicit Types (d acc : gmap K Z) (k : K) (l : list K).

Lemma dict_add_lookup k k' v d :
  Py.dict_add k v d !! k' = if decide (k = k') then mas (d !! k') (Some v) else d !! k'.
Proof.
  unfold Py.dict_add. rewrite lookup_insert. case_decide as Hk; [|done].
  subst k'. destruct (d !! k); simpl; [done | f_equal].
Qed.

Lemma ocurrencias_nil k : ocurrencias k [] = 0.
Proof. done. Qed.

Lemma ocurrencias_cons k k' l :
  ocurrencias k (k' :: l) = (if decide (k = k') then 1 else 0) + ocurrencias k l.
Proof.
  unfold ocurrencias. rewrite filter_cons. case_decide; simpl; lia.
Qed.

Lemma ocurrencias_app k l1 l2 :
  ocurrencias k (l1 ++ l2) = ocurrencias k l1 + ocurrencias k l2.
Proof. unfold ocurrencias. rewrite filter_app, length_app. lia. Qed.

Lemma ocurrencias_nonneg k l : 0 ≤ ocurrencias k l.
Proof. unfold ocurrencias. lia. Qed.

Lemma ocurrencias_pos k l : k ∈ l → 0 < ocurrencias k l.
Proof.
  induction 1; rewrite ocurrencias_cons.
  - rewrite decide_True by done. pose proof (ocurrencias_nonneg x l). lia.
  - case_decide; lia.
Qed.

Lemma ocurrencias_notin k l : k ∉ l → ocurrencias k l = 0.
Proof.
  induction l as [|k' l IH]; [done|]. rewrite not_elem_of_cons. intros [Hne Hl].
  rewrite ocurrencias_cons, decide_False by done. rewrite IH by done. lia.
Qed.

Lemma entrada_nil k : entrada k [] = None.
Proof. unfold entrada. rewrite decide_False; [done | apply not_elem_of_nil]. Qed.

Lemma entrada_app k l1 l2 :
  entrada k (l1 ++ l2) = mas (entrada k l1) (entrada k l2).
Proof.
  unfold entrada. rewrite ocurrencias_app.
  destruct (decide (k ∈ l1)) as [H1|H1], (decide (k ∈ l2)) as [H2|H2]; simpl.
  - rewrite decide_True by (apply elem_of_app; auto). done.
  - rewrite decide_True by (apply elem_of_app; auto).
    rewrite (ocurrencias_notin k l2) by done. f_equal; lia.
  - rewrite decide_True by (apply elem_of_app; auto).
    rewrite (ocurrencias_notin k l1) by done. done.
  - rewrite decide_False; [done|]. rewrite elem_of_app. tauto.
Qed.

Lemma entrada_singleton k k' :
  entrada k [k'] = if decide (k = k') then Some 1 else None.
Proof.
  unfold entrada. rewrite ocurrencias_cons, ocurrencias_nil.
  destruct (decide (k = k')) as [->|Hne].
  - rewrite decide_True by (apply list_elem_of_singleton; done). done.
  - rewrite decide_False; [done|]. rewrite list_elem_of_singleton. done.
Qed.

Lemma mas_assoc a b c : mas (mas a b) c = mas a (mas b c).
Proof. destruct a, b, c; simpl; f_equal; lia. Qed.

Lemma mas_None_r a : mas a None = a.
Proof. by destruct a. Qed.

Lemma contar_en_lookup l acc k :
  foldl (λ d k, Py.dict_add k 1 d) acc l !! k = mas (acc !! k) (entrada k l).
Proof.
  revert acc. induction l as [|k' l IH]; intros acc; simpl.
  - rewrite entrada_nil, mas_None_r. done.
  - rewrite IH, dict_add_lookup.
    change (k' :: l) with ([k'] ++ l). rewrite entrada_app, entrada_singleton.
    destruct (decide (k' = k)) as [->|Hne].
    + rewrite decide_True by done. rewrite mas_assoc. done.
    + rewrite decide_False by done. unfold entrada.
      destruct (acc !! k); case_decide; simpl; f_equal; lia.
Qed.

(** A counting dictionary holds, for each key, its number of rows. *)
Lemma contar_lookup l k : Py.contar l !! k = entrada k l.
Proof.
  unfold Py.contar. rewrite contar_en_lookup, lookup_empty.
  unfold entrada. case_decide; simpl; f_equal; lia.
Qed.

Lemma cuenta_contar l k : cuenta (Py.contar l) k = ocurrencias k l.
Proof.
  unfold cuenta. rewrite contar_lookup. unfold entrada.
  case_decide; simpl; [done|]. symmetry. by apply ocurrencias_notin.
Qed.

Lemma contar_app l1 l2 k :
  Py.contar (l1 ++ l2) !! k = mas (Py.contar l1 !! k) (Py.contar l2 !! k).
Proof. rewrite !contar_lookup. apply entrada_app. Qed.

End Diccionarios.

Section SumaDiccionarios.
Context `{Countable K}.
Implicit Types (src acc : gmap K Z) (k : K).

Lemma sumar_items_lookup (l : list (K * Z)) acc k :
  NoDup l.*1 →
  Py.sumar_items l acc !! k = mas (acc !! k) ((list_to_map l : gmap K Z) !! k).
Proof.
  revert acc. induction l as [|[k' v] l IH]; intros acc Hnd.
  - simpl. rewrite lookup_empty, mas_None_r. done.
  - apply NoDup_cons in Hnd as [Hk' Hnd]. unfold Py.sumar_items in *. simpl.
    rewrite IH by done. rewrite dict_add_lookup, lookup_insert.
    destruct (decide (k' = k)) as [->|Hne]; [|done].
    rewrite (not_elem_of_list_to_map_1 _ _ Hk'). rewrite mas_None_r. done.
Qed.

(** Adding the items of one dictionary into another is the keywise sum
    over the union of their keys. *)
Lemma sumar_dict_lookup src acc k :
  Py.sumar_dict src acc !! k = mas (acc !! k) (src !! k).
Proof.
  unfold Py.sumar_dict. rewrite sumar_items_lookup by apply NoDup_fst_map_to_list.
  rewrite list_to_map_to_list. done.
Qed.

Lemma sumar_dict_empty src : Py.sumar_dict src ∅ = src.
Proof.
  apply map_eq. intros k. rewrite sumar_dict_lookup, lookup_empty.
  destruct (src !! k); simpl; f_equal; lia.
Qed.

Lemma mas_comm a b : mas a b = mas b a.
Proof. destruct a, b; simpl; f_equal; lia. Qed.


Lemma sumar_dict_assoc src1 src2 acc :
  Py.sumar_dict (Py.sumar_dict src2 src1) acc = Py.sumar_dict src2 (Py.sumar_dict src1 acc).
Proof.
  apply map_eq. intros k. rewrite !sumar_dict_lookup. by rewrite mas_assoc.
Qed.

Lemma suma_valores_empty : Py.suma_valores (∅ : gmap K Z) = 0.
Proof. unfold Py.suma_valores. by rewrite map_to_list_empty. Qed.

Lemma foldr_add_perm (l1 l2 : list Z) :
  l1 ≡ₚ l2 → foldr Z.add 0 l1 = foldr Z.add 0 l2.
Proof. induction 1; simpl; lia. Qed.

Lemma suma_valores_insert (d : gmap K Z) k v :
  d !! k = None → Py.suma_valores (<[k := v]> d) = v + Py.suma_valores d.
Proof.
  intros Hk. unfold Py.suma_valores.
  rewrite (foldr_add_perm _ (((k, v) :: map_to_list d).*2)); [done|].
  apply fmap_Permutation, map_to_list_insert. done.
Qed.

Lemma suma_valores_dict_add (d : gmap K Z) k v :
  Py.suma_valores (Py.dict_add k v d) = Py.suma_valores d + v.
Proof.
  unfold Py.dict_add. destruct (d !! k) as [x|] eqn:Hk; simpl.
  - rewrite <- (insert_delete_eq d k (x + v)).
    rewrite suma_valores_insert by apply lookup_delete_eq.
    rewrite <- (insert_id d k x) at 2 by done.
    rewrite <- (insert_delete_eq d k x).
    rewrite suma_valores_insert by apply lookup_delete_eq. lia.
  - rewrite suma_valores_insert by done. lia.
Qed.

(** The values of a counting dictionary add up to the number of rows. *)
Lemma suma_valores_contar (l : list K) :
  Py.suma_valores (Py.contar l) = Z.of_nat (length l).
Proof.
  unfold Py.contar.
  enough (∀ acc, Py.suma_valores (foldl (λ d k, Py.dict_add k 1 d) acc l)
                 = Py.suma_valores acc + Z.of_nat (length l)) as Hgen.
  { rewrite Hgen, suma_valores_empty. lia. }
  induction l as [|k l IH]; intros acc; simpl; [lia|].
  rewrite IH, suma_valores_dict_add. lia.
Qed.

Lemma contar_empty_iff (l : list K) : Py.contar l = ∅ ↔ l = [].
Proof.
  split; [|by intros ->].
  destruct l as [|k l]; [done|]. intros He.
  pose proof (contar_lookup (k :: l) k) as Hk. rewrite He, lookup_empty in Hk.
  unfold entrada in Hk. rewrite decide_True in Hk by (apply elem_of_cons; auto).
  done.
Qed.

End SumaDiccionarios.

(** ** The accumulation loop, field by field *)

Section Bucle.
Implicit Types (a : Acumulador) (ps : list Parcial).

Lemma foldl_acumular_estrato ps a :
  total_estrato (foldl acumular a ps)
  = foldl (λ d p, Py.sumar_dict (p_estrato p) d) (total_estrato a) ps.
Proof. revert a. induction ps as [|p ps IH]; intros a; simpl; [done | by rewrite IH]. Qed.

Lemma foldl_acumular_tramos ps a :
  tramos_total (foldl acumular a ps)
  = foldl (λ d p, Py.sumar_dict (p_tramos p) d) (tramos_total a) ps.
Proof. revert a. induction ps as [|p ps IH]; intros a; simpl; [done | by rewrite IH]. Qed.

Lemma foldl_acumular_edades ps a :
  edad_registros (foldl acumular a ps) = edad_registros a ++ concat (p_edades <$> ps).
Proof.
  revert a. induction ps as [|p ps IH]; intros a; simpl.
  - by rewrite app_nil_r.
  - rewrite IH. simpl. by rewrite <- app_assoc.
Qed.

Lemma foldl_acumular_numerador ps a :
  dep_numerador (foldl acumular a ps)
  = dep_numerador a + foldr Z.add 0 ((λ p, (p_dependencia p).1) <$> ps).
Proof.
  revert a. induction ps as [|p ps IH]; intros a; [simpl; lia|].
  rewrite fmap_cons. cbn [foldl foldr]. rewrite IH.
  cbn [acumular dep_numerador dep_denominador]. lia.
Qed.

Lemma foldl_acumular_denominador ps a :
  dep_denominador (foldl acumular a ps)
  = dep_denominador a + foldr Z.add 0 ((λ p, (p_dependencia p).2) <$> ps).
Proof.
  revert a. induction ps as [|p ps IH]; intros a; [simpl; lia|].
  rewrite fmap_cons. cbn [foldl foldr]. rewrite IH.
  cbn [acumular dep_numerador dep_denominador]. lia.
Qed.

Lemma foldl_acumular_viajes ps a :
  viajes_total (foldl acumular a ps)
  = foldl (λ d p, sumar_viajes (p_viajes p) d) (viajes_total a) ps.
Proof. revert a. induction ps as [|p ps IH]; intros a; simpl; [done | by rewrite IH]. Qed.

Lemma foldl_acumular_piramide ps a :
  piramide_total (foldl acumular a ps) = piramide_total a ++ (p_piramide <$> ps).
Proof.
  revert a. induction ps as [|p ps IH]; intros a; simpl.
  - by rewrite app_nil_r.
  - rewrite IH. simpl. by rewrite <- app_assoc.
Qed.

End Bucle.

Section Particiones.
Context `{Countable K}.

(** Merging the counting dictionaries of the pieces of a list gives the
    counting dictionary of the whole list. *)
Lemma foldl_sumar_contar (piezas : list (list K)) (acc : gmap K Z) k :
  foldl (λ d l, Py.sumar_dict (Py.contar l) d) acc piezas !! k
  = mas (acc !! k) (entrada k (concat piezas)).
Proof.
  revert acc. induction piezas as [|l piezas IH]; intros acc; simpl.
  - by rewrite entrada_nil, mas_None_r.
  - rewrite IH, sumar_dict_lookup, contar_lookup, entrada_app. apply mas_assoc.
Qed.

Lemma foldl_sumar_contar_empty (piezas : list (list K)) :
  foldl (λ d l, Py.sumar_dict (Py.contar l) d) ∅ piezas = Py.contar (concat piezas).
Proof.
  apply map_eq. intros k. rewrite foldl_sumar_contar, lookup_empty, contar_lookup.
  unfold entrada. case_decide; simpl; f_equal; lia.
Qed.

End Particiones.

Lemma omap_concat {A B} (f : A → option B) (ls : list (list A)) :
  concat ((omap f : list A → list B) <$> ls) = omap f (concat ls).
Proof.
  induction ls as [|l ls IH]; [done|].
  rewrite fmap_cons. cbn [concat]. by rewrite omap_app, IH.
Qed.

Lemma contar_si_app cond l1 l2 :
  contar_si cond (l1 ++ l2) = contar_si cond l1 + contar_si cond l2.
Proof. unfold contar_si. rewrite List.filter_app, length_app. lia. Qed.

Lemma contar_si_concat cond (f : Fila → option Z) (chunks : list (list Fila)) :
  foldr Z.add 0 ((λ c, contar_si cond (f <$> c)) <$> chunks)
  = contar_si cond (f <$> concat chunks).
Proof.
  induction chunks as [|c chunks IH]; [done|].
  rewrite fmap_cons. cbn [foldr concat].
  rewrite fmap_app, contar_si_app, IH. done.
Qed.

(** ** The combined dictionaries in terms of the whole dataset *)

Section Combinado.
Variable anio : Z.
Implicit Types (chunks : list (list Fila)).
Local Abbreviation acumulado := (acumulado anio).
Local Abbreviation claves_tramo := (claves_tramo anio).

Lemma acumulado_estrato chunks :
  total_estrato (acumulado chunks) = Py.contar (omap estrato_de (concat chunks)).
Proof.
  unfold acumulado. rewrite foldl_acumular_estrato, foldl_fmap. simpl.
  rewrite <- omap_concat, <- foldl_sumar_contar_empty, foldl_fmap. done.
Qed.

Lemma acumulado_tramos chunks :
  tramos_total (acumulado chunks) = Py.contar (claves_tramo (concat chunks)).
Proof.
  unfold acumulado, claves_tramo. rewrite foldl_acumular_tramos, foldl_fmap. simpl.
  rewrite <- omap_concat, <- foldl_sumar_contar_empty, foldl_fmap. done.
Qed.

Lemma acumulado_numerador chunks :
  dep_numerador (acumulado chunks)
  = contar_si (λ e, e <? 15) (edad_de anio <$> concat chunks)
    + contar_si (λ e, 64 <? e) (edad_de anio <$> concat chunks).
Proof.
  unfold acumulado. rewrite foldl_acumular_numerador. simpl.
  rewrite <- !contar_si_concat. rewrite <- list_fmap_compose.
  induction chunks as [|c chunks IH]; [done|].
  rewrite !fmap_cons. cbn [foldr]. cbn [compose procesar_chunk p_dependencia fst] in *. lia.
Qed.

Lemma acumulado_denominador chunks :
  dep_denominador (acumulado chunks)
  = contar_si (λ e, (15 <=? e) && (e <=? 64)) (edad_de anio <$> concat chunks).
Proof.
  unfold acumulado. rewrite foldl_acumular_denominador. simpl.
  rewrite <- contar_si_concat. rewrite <- list_fmap_compose. done.
Qed.

End Combinado.

(** ** Insertion-ordered dictionaries and grouped tables *)

Section Odict.
Context {K : Type} `{EqDecision K}.
Implicit Types (d vs : list (K * Z)) (k : K).

Lemma odict_get_add k k' v d :
  Py.odict_get k (Py.odict_add k' v d)
  = if decide (k' = k) then mas (Py.odict_get k d) (Some v) else Py.odict_get k d.
Proof.
  induction d as [|[k'' v''] d IH]; simpl.
  - repeat case_decide; simplify_eq; done.
  - repeat (case_decide; simplify_eq; simpl); try done;
      rewrite IH; repeat case_decide; simplify_eq; done.
Qed.

Lemma odict_add_keys k v d :
  (Py.odict_add k v d).*1 = if decide (k ∈ d.*1) then d.*1 else d.*1 ++ [k].
Proof.
  induction d as [|[k' v'] d IH]; [done|].
  cbn [Py.odict_add]. destruct (decide (k = k')) as [->|Hne]; rewrite !fmap_cons; cbn [fst].
  - rewrite decide_True by (apply elem_of_cons; auto). done.
  - rewrite IH. destruct (decide (k ∈ d.*1)) as [Hin|Hin].
    + rewrite decide_True by (apply elem_of_cons; auto). done.
    + rewrite decide_False; [done|]. rewrite elem_of_cons. tauto.
Qed.

Lemma odict_add_NoDup k v d : NoDup d.*1 → NoDup (Py.odict_add k v d).*1.
Proof.
  intros Hnd. rewrite odict_add_keys. case_decide as Hin; [done|].
  apply NoDup_app. split_and!; [done| |apply NoDup_singleton].
  intros x Hx Hx'. apply list_elem_of_singleton in Hx'. by subst.
Qed.

Lemma odict_get_None d k : Py.odict_get k d = None ↔ k ∉ d.*1.
Proof.
  induction d as [|[k' v'] d IH]; simpl.
  - split; [intros _; apply not_elem_of_nil | done].
  - rewrite not_elem_of_cons. case_decide; [|rewrite IH]; intuition congruence.
Qed.

Lemma odict_get_Some d k v :
  NoDup d.*1 → Py.odict_get k d = Some v ↔ (k, v) ∈ d.
Proof.
  induction d as [|[k' v'] d IH]; simpl; intros Hnd.
  - rewrite elem_of_nil. split; [discriminate | tauto].
  - apply NoDup_cons in Hnd as [Hk' Hnd]. rewrite elem_of_cons.
    destruct (decide (k = k')) as [->|Hne].
    + split; [intros [= ->]; by left|]. intros [[= ->]|Hin]; [done|].
      destruct Hk'. apply list_elem_of_fmap. by exists (k', v).
    + rewrite IH by done. split; [by right|]. intros [[= -> _]|Hin]; done.
Qed.

(** Two ordered dictionaries without repeated keys that agree on every
    key hold the same entries, up to order. *)
Lemma odict_Permutation d1 d2 :
  NoDup d1.*1 → NoDup d2.*1 →
  (∀ k, Py.odict_get k d1 = Py.odict_get k d2) → d1 ≡ₚ d2.
Proof.
  intros H1 H2 Hget. apply NoDup_Permutation; [by eapply NoDup_fmap_1..|].
  intros [k v]. rewrite <- !odict_get_Some by done. by rewrite Hget.
Qed.

Lemma foldl_odict_add_get vs d k :
  Py.odict_get k (foldl (λ d v, Py.odict_add v.1 v.2 d) d vs)
  = mas (Py.odict_get k d) (total_viajes k vs).
Proof.
  revert d. induction vs as [|[k' v'] vs IH]; intros d; simpl.
  - by rewrite mas_None_r.
  - rewrite IH, odict_get_add. case_decide; [|done]. apply mas_assoc.
Qed.

Lemma foldl_odict_add_NoDup vs d :
  NoDup d.*1 → NoDup (foldl (λ d v, Py.odict_add v.1 v.2 d) d vs).*1.
Proof.
  revert d. induction vs as [|v vs IH]; intros d Hd; simpl; [done|].
  by apply IH, odict_add_NoDup.
Qed.

Lemma total_viajes_app k vs1 vs2 :
  total_viajes k (vs1 ++ vs2) = mas (total_viajes k vs1) (total_viajes k vs2).
Proof.
  induction vs1 as [|v vs1 IH]; simpl.
  - destruct (total_viajes k vs2); done.
  - case_decide; [|done]. rewrite IH.
    destruct (total_viajes k vs1), (total_viajes k vs2); simpl; f_equal; lia.
Qed.

End Odict.

Section Grupos.
Context {K V : Type} `{EqDecision K} (cmp : K → K → comparison).
Hypothesis cmp_eq : ∀ a b, cmp a b = Eq → a = b.
Implicit Types (gs : list (K * list V)) (k : K).

Lemma total_grupos_agregar k k' v gs :
  total_grupos k (Py.agregar_fila cmp k' v gs)
  = mas (total_grupos k gs) (if decide (k' = k) then Some 1 else None).
Proof.
  induction gs as [|[k'' vs] gs IH]; simpl.
  - case_decide; done.
  - destruct (cmp k' k'') eqn:Hc; simpl.
    + apply cmp_eq in Hc as ->. clear IH.
      destruct (decide (k'' = k)), (total_grupos k gs);
        rewrite ?length_app; simpl; try done; f_equal; lia.
    + clear IH.
      destruct (decide (k' = k)), (decide (k'' = k)), (total_grupos k gs);
        simpl; try done; f_equal; lia.
    + rewrite IH.
      destruct (decide (k' = k)), (decide (k'' = k)), (total_grupos k gs);
        simpl; try done; f_equal; lia.
Qed.

Lemma total_grupos_foldl (rows : list (K * V)) gs k :
  total_grupos k (foldl (λ gs kv, Py.agregar_fila cmp kv.1 kv.2 gs) gs rows)
  = mas (total_grupos k gs) (entrada k rows.*1).
Proof.
  revert gs. induction rows as [|[k' v] rows IH]; intros gs.
  - simpl. by rewrite entrada_nil, mas_None_r.
  - cbn [foldl]. rewrite IH, total_grupos_agregar, fmap_cons. cbn [fst snd].
    change (k' :: rows.*1) with ([k'] ++ rows.*1).
    rewrite entrada_app, entrada_singleton, mas_assoc.
    destruct (decide (k' = k)) as [->|Hne].
    + by rewrite decide_True.
    + by rewrite decide_False.
Qed.

(** A grouped table holds, for each key, as many rows as the input. *)
Lemma total_grupos_groupby (rows : list (K * V)) k :
  total_grupos k (Py.groupby cmp rows) = entrada k rows.*1.
Proof.
  unfold Py.groupby. rewrite total_grupos_foldl. simpl.
  unfold entrada. case_decide; done.
Qed.

Lemma total_viajes_size gs k :
  total_viajes k ((λ g : K * list V, (g.1, Z.of_nat (length g.2))) <$> gs)
  = total_grupos k gs.
Proof.
  induction gs as [|g gs IH]; [done|].
  rewrite fmap_cons. cbn [total_viajes total_grupos fst snd]. by rewrite IH.
Qed.

End Grupos.

Lemma string_compare_refl s : String.compare s s = Eq.
Proof.
  pose proof (String.compare_antisym s s) as Ha.
  destruct (String.compare s s); simpl in Ha; congruence.
Qed.

Lemma cmp_par_eq a b : Py.cmp_par a b = Eq → a = b.
Proof.
  destruct a as [a1 a2], b as [b1 b2]. unfold Py.cmp_par. simpl.
  destruct (String.compare a1 b1) eqn:H1; try discriminate.
  intros H2. apply String.compare_eq_iff in H1, H2. by subst.
Qed.

Lemma cmp_entero_eq a b : Py.cmp_entero a b = Eq → a = b.
Proof.
  unfold Py.cmp_entero.
  destruct (_ ?= _); try discriminate. apply String.compare_eq_iff.
Qed.

Lemma cmp_columna_eq (entera : bool) a b : Py.cmp_columna entera a b = Eq → a = b.
Proof.
  destruct entera; [apply cmp_entero_eq | apply String.compare_eq_iff].
Qed.

Lemma cmp_viaje_eq (o d : bool) a b : Py.cmp_viaje o d a b = Eq → a = b.
Proof.
  destruct a as [a1 a2], b as [b1 b2]. unfold Py.cmp_viaje. simpl.
  destruct (Py.cmp_columna o a1 b1) eqn:H1; try discriminate.
  intros H2. apply cmp_columna_eq in H1, H2. by subst.
Qed.

(** ** Travel flows: totals, order and truncation *)

Section Viajes.
Variable anio : Z.
Implicit Types (chunks : list (list Fila)) (k : string * string).

Lemma total_viajes_procesar (c : list Fila) k :
  total_viajes k (p_viajes (procesar_chunk anio c)) = entrada k (claves_viaje c).
Proof.
  cbn [procesar_chunk p_viajes].
  rewrite (list_fmap_ext _ (λ g : string * string * list (), (g.1, Z.of_nat (length g.2))))
    by (by intros _ [[??]?] _).
  rewrite total_viajes_size, total_grupos_groupby by apply cmp_viaje_eq.
  unfold claves_viaje. by rewrite <- list_fmap_compose.
Qed.



Lemma foldl_sumar_viajes_NoDup (ps : list Parcial) (d : list (string * string * Z)) :
  NoDup d.*1 → NoDup (foldl (λ d p, sumar_viajes (p_viajes p) d) d ps).*1.
Proof.
  revert d. induction ps as [|p ps IH]; intros d Hd; [done|].
  cbn [foldl]. apply IH. by apply foldl_odict_add_NoDup.
Qed.

Lemma viajes_total_NoDup (ps : list Parcial) :
  NoDup (viajes_total (foldl acumular acumulador_inicial ps)).*1.
Proof.
  rewrite foldl_acumular_viajes. apply foldl_sumar_viajes_NoDup. constructor.
Qed.

End Viajes.

Section Ordenacion.
Context {K : Type}.
Implicit Types (x y : K * Z) (l : list (K * Z)).

Lemma insertar_desc_Permutation x l : Py.insertar_desc x l ≡ₚ x :: l.
Proof.
  induction l as [|y l IH]; simpl; [done|].
  case_match; [|done]. rewrite IH. apply Permutation_swap.
Qed.

Lemma sorted_desc_Permutation l : Py.sorted_desc l ≡ₚ l.
Proof.
  induction l as [|x l IH]; simpl; [done|].
  rewrite insertar_desc_Permutation. by rewrite IH.
Qed.

Lemma insertar_desc_sorted x l :
  StronglySorted desc l → StronglySorted desc (Py.insertar_desc x l).
Proof.
  induction 1 as [|y l Hl IH Hy]; simpl.
  - repeat constructor.
  - destruct (x.2 <? y.2) eqn:Hxy.
    + apply Z.ltb_lt in Hxy. constructor; [done|].
      rewrite insertar_desc_Permutation. constructor; [|done].
      unfold desc. lia.
    + apply Z.ltb_ge in Hxy. constructor; [by constructor|].
      constructor; [done|].
      eapply Forall_impl; [exact Hy|]. unfold desc. intros z Hz. lia.
Qed.

(** [sorted] returns its input in descending order of count. *)
Lemma sorted_desc_sorted l : StronglySorted desc (Py.sorted_desc l).
Proof.
  induction l as [|x l IH]; simpl; [constructor|]. by apply insertar_desc_sorted.
Qed.

Lemma insertar_desc_filter x l c :
  filter (λ y, y.2 = c) (Py.insertar_desc x l) = filter (λ y, y.2 = c) (x :: l).
Proof.
  induction l as [|y l IH]; simpl; [done|].
  destruct (x.2 <? y.2) eqn:Hxy; [|done]. apply Z.ltb_lt in Hxy.
  rewrite (filter_cons _ y), IH, !(filter_cons _ x), (filter_cons _ y).
  repeat case_decide; try done; lia.
Qed.

(** [sorted] is stable: entries of equal count keep their order. *)
Lemma sorted_desc_stable l c :
  filter (λ y, y.2 = c) (Py.sorted_desc l) = filter (λ y, y.2 = c) l.
Proof.
  induction l as [|x l IH]; simpl; [done|].
  rewrite insertar_desc_filter, !(filter_cons _ x), IH. done.
Qed.

Lemma sorted_counts_unique (l1 l2 : list (K * Z)) :
  StronglySorted desc l1 → StronglySorted desc l2 → l1 ≡ₚ l2 → l1.*2 = l2.*2.
Proof.
  intros H1 H2 Hp.
  apply (StronglySorted_unique_strong (λ a b : Z, b ≤ a)).
  - intros; lia.
  - clear -H1. induction H1 as [|x l Hl IH Hx]; [constructor|].
    rewrite fmap_cons. constructor; [done|].
    apply Forall_fmap. eapply Forall_impl; [exact Hx|]. done.
  - clear -H2. induction H2 as [|x l Hl IH Hx]; [constructor|].
    rewrite fmap_cons. constructor; [done|].
    apply Forall_fmap. eapply Forall_impl; [exact Hx|]. done.
  - by apply fmap_Permutation.
Qed.

(** The sequence of counts of the sorted list depends only on the
    entries, not on their order. *)
Lemma sorted_desc_counts (l1 l2 : list (K * Z)) :
  l1 ≡ₚ l2 → (Py.sorted_desc l1).*2 = (Py.sorted_desc l2).*2.
Proof.
  intros Hp. apply sorted_counts_unique; [apply sorted_desc_sorted..|].
  by rewrite !sorted_desc_Permutation.
Qed.

End Ordenacion.

(** ** Rounding *)

Section Redondeo.

(** The rounded quotient is within half a unit of the exact one. *)
Lemma redondear_div_error n d :
  0 < d → Z.abs (2 * (Py.redondear_div n d * d - n)) ≤ d.
Proof.
  intros Hd. unfold Py.redondear_div.
  pose proof (Z.div_mod n d ltac:(lia)) as Hdm.
  pose proof (Z.mod_pos_bound n d Hd) as Hr.
  set (q := n / d) in *. set (r := n mod d) in *.
  destruct (2 * r <? d) eqn:H1; [apply Z.ltb_lt in H1; nia|].
  apply Z.ltb_ge in H1.
  destruct (d <? 2 * r) eqn:H2; [apply Z.ltb_lt in H2; nia|].
  apply Z.ltb_ge in H2. destruct (Z.even q); nia.
Qed.

Lemma pow2_num_pos e : 0 < Py.pow2_num e.
Proof. apply Z.pow_pos_nonneg; lia. Qed.

Lemma pow2_den_pos e : 0 < Py.pow2_den e.
Proof. apply Z.pow_pos_nonneg; lia. Qed.

(** [2^k * 2^e <= n / d] as soon as [k + e] is below the difference of
    the binary logarithms of [n] and [d]. *)
Lemma pow2_frac_le n d e k :
  0 < n → 0 < d → 0 ≤ k → e + k ≤ Z.log2 n - Z.log2 d - 1 →
  2 ^ k * (d * Py.pow2_num e) ≤ n * Py.pow2_den e.
Proof.
  intros Hn Hd Hk He.
  pose proof (Z.log2_spec n Hn) as [Hn1 _].
  pose proof (Z.log2_spec d Hd) as [_ Hd2].
  pose proof (Z.log2_nonneg n) as Hln. pose proof (Z.log2_nonneg d) as Hld.
  set (ln := Z.log2 n) in *. set (ld := Z.log2 d) in *.
  assert (d ≤ 2 ^ (ld + 1)) as Hd3 by (unfold Z.succ in Hd2; lia).
  assert (0 < 2 ^ k) as Hpk by (apply Z.pow_pos_nonneg; lia).
  unfold Py.pow2_num, Py.pow2_den.
  destruct (Z.le_gt_cases 0 e) as [He0|He0].
  - rewrite (Z.max_l e 0), (Z.max_r (- e) 0) by lia.
    rewrite Z.pow_0_r, Z.mul_1_r.
    assert (0 < 2 ^ e) as Hpe by (apply Z.pow_pos_nonneg; lia).
    assert (2 ^ k * (d * 2 ^ e) ≤ 2 ^ k * (2 ^ (ld + 1) * 2 ^ e)) as H1.
    { apply Z.mul_le_mono_nonneg_l; [lia|].
      apply Z.mul_le_mono_nonneg_r; lia. }
    assert (2 ^ k * (2 ^ (ld + 1) * 2 ^ e) = 2 ^ (k + (ld + 1 + e))) as H2.
    { rewrite <- !Z.pow_add_r by lia. done. }
    assert (2 ^ (k + (ld + 1 + e)) ≤ 2 ^ ln) as H3
      by (apply Z.pow_le_mono_r; lia).
    lia.
  - rewrite (Z.max_r e 0), (Z.max_l (- e) 0) by lia.
    rewrite Z.pow_0_r, Z.mul_1_r.
    assert (0 < 2 ^ (- e)) as Hpe by (apply Z.pow_pos_nonneg; lia).
    assert (2 ^ k * d ≤ 2 ^ k * 2 ^ (ld + 1)) as H1
      by (apply Z.mul_le_mono_nonneg_l; lia).
    assert (2 ^ k * 2 ^ (ld + 1) = 2 ^ (k + (ld + 1))) as H2
      by (rewrite <- Z.pow_add_r by lia; done).
    assert (2 ^ (k + (ld + 1)) ≤ 2 ^ (ln + - e)) as H3
      by (apply Z.pow_le_mono_r; lia).
    assert (2 ^ (ln + - e) = 2 ^ ln * 2 ^ (- e)) as H4
      by (rewrite Z.pow_add_r by lia; done).
    assert (2 ^ ln * 2 ^ (- e) ≤ n * 2 ^ (- e)) as H5
      by (apply Z.mul_le_mono_nonneg_r; lia).
    lia.
Qed.

(** The significand of the quotient has its 53 bits: it is at least
    [2^52]. *)
Lemma exponente_normal n d :
  0 < n → 0 < d →
  2 ^ 52 * (d * Py.pow2_num (Py.exponente n d))
  ≤ n * Py.pow2_den (Py.exponente n d).
Proof.
  intros Hn Hd. unfold Py.exponente. cbv zeta.
  destruct (_ <=? _) eqn:Ht.
  - by apply Z.leb_le in Ht.
  - apply pow2_frac_le; lia.
Qed.

Lemma pow2_frac_lt n d e k :
  0 < n → 0 < d → 0 ≤ k → Z.log2 n - Z.log2 d + 1 ≤ e + k →
  n * Py.pow2_den e < 2 ^ k * (d * Py.pow2_num e).
Proof.
  intros Hn Hd Hk He.
  pose proof (Z.log2_spec n Hn) as [_ Hn2].
  pose proof (Z.log2_spec d Hd) as [Hd1 _].
  pose proof (Z.log2_nonneg n) as Hln. pose proof (Z.log2_nonneg d) as Hld.
  set (ln := Z.log2 n) in *. set (ld := Z.log2 d) in *.
  assert (n < 2 ^ (ln + 1)) as Hn3 by (unfold Z.succ in Hn2; lia).
  assert (0 < 2 ^ k) as Hpk by (apply Z.pow_pos_nonneg; lia).
  unfold Py.pow2_num, Py.pow2_den.
  destruct (Z.le_gt_cases 0 e) as [He0|He0].
  - rewrite (Z.max_l e 0), (Z.max_r (- e) 0) by lia.
    rewrite Z.pow_0_r, Z.mul_1_r.
    assert (0 < 2 ^ e) as Hpe by (apply Z.pow_pos_nonneg; lia).
    assert (2 ^ k * (2 ^ ld * 2 ^ e) ≤ 2 ^ k * (d * 2 ^ e)) as H1.
    { apply Z.mul_le_mono_nonneg_l; [lia|].
      apply Z.mul_le_mono_nonneg_r; lia. }
    assert (2 ^ k * (2 ^ ld * 2 ^ e) = 2 ^ (k + (ld + e))) as H2
      by (rewrite <- !Z.pow_add_r by lia; done).
    assert (2 ^ (ln + 1) ≤ 2 ^ (k + (ld + e))) as H3
      by (apply Z.pow_le_mono_r; lia).
    lia.
  - rewrite (Z.max_r e 0), (Z.max_l (- e) 0) by lia.
    rewrite Z.pow_0_r, Z.mul_1_r.
    assert (0 < 2 ^ (- e)) as Hpe by (apply Z.pow_pos_nonneg; lia).
    assert (n * 2 ^ (- e) < 2 ^ (ln + 1) * 2 ^ (- e)) as H1
      by (apply Z.mul_lt_mono_pos_r; lia).
    assert (2 ^ (ln + 1) * 2 ^ (- e) = 2 ^ (ln + 1 + - e)) as H2
      by (rewrite <- Z.pow_add_r by lia; done).
    assert (2 ^ (ln + 1 + - e) ≤ 2 ^ (k + ld)) as H3
      by (apply Z.pow_le_mono_r; lia).
    assert (2 ^ (k + ld) = 2 ^ k * 2 ^ ld) as H4
      by (rewrite Z.pow_add_r by lia; done).
    assert (2 ^ k * 2 ^ ld ≤ 2 ^ k * d) as H5
      by (apply Z.mul_le_mono_nonneg_l; lia).
    lia.
Qed.

(** [2 ^ e] is twice [2 ^ (e - 1)]. *)
Lemma pow2_frac_doble e :
  Py.pow2_num e * Py.pow2_den (e - 1) = 2 * (Py.pow2_num (e - 1) * Py.pow2_den e).
Proof.
  unfold Py.pow2_num, Py.pow2_den.
  destruct (Z.le_gt_cases 1 e) as [He|He].
  - rewrite (Z.max_l e 0), (Z.max_r (- (e - 1)) 0), (Z.max_l (e - 1) 0),
      (Z.max_r (- e) 0) by lia.
    rewrite Z.pow_0_r, !Z.mul_1_r.
    replace e with (1 + (e - 1)) at 1 by lia.
    by rewrite Z.pow_add_r by lia.
  - rewrite (Z.max_r e 0), (Z.max_l (- (e - 1)) 0), (Z.max_r (e - 1) 0),
      (Z.max_l (- e) 0) by lia.
    rewrite Z.pow_0_r, !Z.mul_1_l.
    replace (- (e - 1)) with (1 + - e) by lia.
    by rewrite Z.pow_add_r by lia.
Qed.

(** The significand of the quotient fits in its 53 bits: the quotient,
    scaled by the exponent, is below [2^53]. *)
Lemma exponente_acotado n d :
  0 < n → 0 < d →
  n * Py.pow2_den (Py.exponente n d)
  < 2 ^ 53 * (d * Py.pow2_num (Py.exponente n d)).
Proof.
  intros Hn Hd. unfold Py.exponente. cbv zeta.
  set (e := Z.log2 n - Z.log2 d - 52).
  destruct (_ <=? _) eqn:Ht.
  - apply pow2_frac_lt; lia.
  - apply Z.leb_gt in Ht.
    pose proof (pow2_frac_doble e) as H2.
    pose proof (pow2_num_pos e) as HA1. pose proof (pow2_den_pos e) as HB1.
    pose proof (pow2_num_pos (e - 1)) as HA. pose proof (pow2_den_pos (e - 1)) as HB.
    set (A1 := Py.pow2_num e) in *. set (B1 := Py.pow2_den e) in *.
    set (A := Py.pow2_num (e - 1)) in *. set (B := Py.pow2_den (e - 1)) in *.
    change (2 ^ 53) with (2 * 2 ^ 52). set (P := 2 ^ 52) in *.
    apply (Z.mul_lt_mono_pos_r B1); [done|].
    assert (n * B1 * B < P * (d * A1) * B) as H3
      by (apply Z.mul_lt_mono_pos_r; lia).
    replace (P * (d * A1) * B) with (P * d * (A1 * B)) in H3 by ring.
    rewrite H2 in H3.
    replace (n * B * B1) with (n * B1 * B) by ring.
    replace (2 * P * (d * A) * B1) with (P * d * (2 * (A * B1))) by ring.
    exact H3.
Qed.

(** The quotient computed is a [float]: its significand has exactly 53
    bits (or is [2^53], the next power of two). *)
Lemma binary64_div_significand n d :
  0 < n → 0 < d →
  let e := Py.exponente n d in
  let m := Py.redondear_div (n * Py.pow2_den e) (d * Py.pow2_num e) in
  2 ^ 52 ≤ m ≤ 2 ^ 53.
Proof.
  intros Hn Hd e m.
  pose proof (exponente_normal n d Hn Hd) as Hlo.
  pose proof (exponente_acotado n d Hn Hd) as Hhi.
  fold e in Hlo, Hhi.
  pose proof (pow2_num_pos e) as HA. pose proof (pow2_den_pos e) as HB.
  set (A := Py.pow2_num e) in *. set (B := Py.pow2_den e) in *.
  pose proof (redondear_div_error (n * B) (d * A) ltac:(nia)) as Hm.
  fold m in Hm.
  assert (0 < d * A) as HD by nia.
  set (D := d * A) in *. set (N := n * B) in *.
  change (2 ^ 53) with 9007199254740992 in *.
  change (2 ^ 52) with 4503599627370496 in *.
  split.
  - destruct (Z.le_gt_cases 4503599627370496 m) as [?|Hlt]; [done|].
    assert (m * D ≤ 4503599627370495 * D) by nia. lia.
  - destruct (Z.le_gt_cases m 9007199254740992) as [?|Hgt]; [done|].
    assert (9007199254740993 * D ≤ m * D) by nia. lia.
Qed.

(** On the quotients [1/10], [1/80], [100/4000] and [1/8]: the [float]
    nearest to [1/10] is [0x1.999999999999ap-4], and [round] goes by the
    value of the [float], not by that of the exact quotient. *)
Lemma truediv_round_ejemplos :
  (Py.truediv 1 10 == 3602879701896397 # 2 ^ 55)%Q
  ∧ Py.round (Py.truediv 1 80) 3 = 13 # 1000
  ∧ Py.round (Py.truediv 100 4000) 2 = 3 # 100
  ∧ Py.round (Py.truediv 1 8) 2 = 12 # 100
  ∧ Py.round (Py.truediv 3 8) 2 = 38 # 100.
Proof. split_and!; vm_compute; reflexivity. Qed.

(** The [float] quotient is within a relative [2^-53] of the exact
    one. *)
Lemma binary64_div_error n d :
  0 < n → 0 < d →
  Z.abs (Qnum (Py.binary64_div n d) * d - n * Zpos (Qden (Py.binary64_div n d)))
  * 2 ^ 53
  ≤ n * Zpos (Qden (Py.binary64_div n d)).
Proof.
  intros Hn Hd. unfold Py.binary64_div. cbv zeta. cbn [Qnum Qden].
  pose proof (exponente_normal n d Hn Hd) as Hnorm.
  set (e := Py.exponente n d) in *.
  pose proof (pow2_num_pos e) as HA. pose proof (pow2_den_pos e) as HB.
  set (A := Py.pow2_num e) in *. set (B := Py.pow2_den e) in *.
  rewrite Z2Pos.id by done.
  pose proof (redondear_div_error (n * B) (d * A) ltac:(nia)) as Hm.
  set (m := Py.redondear_div (n * B) (d * A)) in *.
  change (2 ^ 53) with (2 * 2 ^ 52).
  set (P := 2 ^ 52) in *.
  replace (m * A * d) with (m * (d * A)) by ring.
  set (D := d * A) in *. set (N := n * B) in *.
  set (u := m * D - N) in *. lia.
Qed.

Lemma truediv_0 T : Py.truediv 0 T = 0%Q.
Proof. done. Qed.

Lemma truediv_pos a T : 0 < a → 0 < T → Py.truediv a T = Py.binary64_div a T.
Proof.
  intros Ha HT. unfold Py.truediv.
  rewrite (proj2 (Z.eqb_neq a 0)) by lia.
  rewrite !Z.abs_eq, !Z.sgn_pos by lia. done.
Qed.

(** [round(a / T, nd)] is a whole number [h] of units of [10^-nd], and
    [h] is within half a unit, and a relative [2^-53], of
    [a * 10^nd / T]. *)
Lemma round_truediv a T nd :
  0 ≤ a → 0 < T → 0 ≤ nd →
  ∃ h, Py.round (Py.truediv a T) nd = Qmake h (Z.to_pos (10 ^ nd))
       ∧ 2 ^ 53 * Z.abs (h * T - a * 10 ^ nd) ≤ 2 ^ 52 * T + 10 ^ nd * a.
Proof.
  intros Ha HT Hnd.
  assert (0 < 10 ^ nd) as Hp by (apply Z.pow_pos_nonneg; lia).
  destruct (Z.eq_dec a 0) as [->|Ha0].
  - exists 0. rewrite truediv_0. split; [|lia].
    unfold Py.round. cbn [Qnum Qden]. by rewrite Z.mul_0_l.
  - rewrite truediv_pos by lia.
    pose proof (binary64_div_error a T ltac:(lia) HT) as Hx.
    unfold Py.round. cbv zeta.
    set (x := Py.binary64_div a T) in *.
    eexists. split; [reflexivity|].
    pose proof (redondear_div_error (Qnum x * 10 ^ nd) (Zpos (Qden x)) ltac:(lia)) as Hh.
    set (h := Py.redondear_div (Qnum x * 10 ^ nd) (Zpos (Qden x))) in *.
    set (p := 10 ^ nd) in *. set (X := Qnum x) in *. set (Y := Zpos (Qden x)) in *.
    assert (0 < Y) as HY by (unfold Y; lia).
    change (2 ^ 53) with (2 * 2 ^ 52) in *. set (P := 2 ^ 52) in *.
    assert (0 < P) as HP by (unfold P; lia).
    set (u := h * Y - X * p) in *. set (v := X * T - a * Y) in *.
    assert (Y * (h * T - a * p) = T * u + p * v) as Hw by (unfold u, v; ring).
    apply (Z.mul_le_mono_pos_l _ _ Y HY).
    transitivity (2 * P * Z.abs (T * u + p * v)).
    { rewrite <- Hw, Z.abs_mul, (Z.abs_eq Y) by lia. lia. }
    assert (Z.abs (T * u + p * v) ≤ T * Z.abs u + p * Z.abs v) as Htri.
    { rewrite <- (Z.abs_eq T) at 2 by lia. rewrite <- (Z.abs_eq p) at 2 by lia.
      rewrite <- !Z.abs_mul. apply Z.abs_triangle. }
    assert (2 * P * (p * Z.abs v) ≤ p * (a * Y)) as Hv by nia.
    assert (2 * P * (T * Z.abs u) ≤ P * T * Y) as Hu by nia.
    nia.
Qed.

(** [round(x, nd)] is within half a unit of [10^-nd] of [x]. *)
Lemma round_error (x : Q) (nd : Z) :
  0 ≤ nd → (Qabs (Py.round x nd - x) <= 1 # (2 * Z.to_pos (10 ^ nd)))%Q.
Proof.
  intros Hnd. unfold Py.round. cbv zeta.
  assert (0 < 10 ^ nd) as HP by (apply Z.pow_pos_nonneg; lia).
  pose proof (redondear_div_error (Qnum x * 10 ^ nd) (Zpos (Qden x)) ltac:(lia)) as Hh.
  set (h := Py.redondear_div (Qnum x * 10 ^ nd) (Zpos (Qden x))) in *.
  apply Qabs_Qle_condition.
  unfold Qle, Qminus, Qplus, Qopp. cbn [Qnum Qden Z.opp].
  rewrite !Pos2Z.inj_mul. rewrite !Z2Pos.id by lia.
  set (P := 10 ^ nd) in *. set (X := Qnum x) in *. set (Y := Zpos (Qden x)) in *.
  assert (0 < Y) as HY by (unfold Y; lia).
  split; nia.
Qed.

(** The [float] quotient of two counts is within a relative [2^-53] of
    their exact quotient. *)
Lemma truediv_error a T :
  0 ≤ a → 0 < T →
  (Qabs (Py.truediv a T - inject_Z a / inject_Z T)
   <= (inject_Z a / inject_Z T) * (1 # 2 ^ 53))%Q.
Proof.
  intros Ha HT. destruct (Z.eq_dec a 0) as [->|Ha0].
  - rewrite truediv_0. destruct T; try lia. vm_compute. discriminate.
  - rewrite truediv_pos by lia.
    pose proof (binary64_div_error a T ltac:(lia) HT) as Hx.
    set (x := Py.binary64_div a T) in *.
    destruct T as [|t|t]; try lia.
    apply Qabs_Qle_condition.
    unfold Qle, Qminus, Qplus, Qopp, Qdiv, Qmult, Qinv, inject_Z.
    cbn [Qnum Qden Pos.mul Z.opp].
    rewrite !Pos2Z.inj_mul.
    change (Z.pos (2 ^ 53)) with (2 * 2 ^ 52) in *.
    change (2 ^ 53) with (2 * 2 ^ 52) in Hx.
    set (P := 2 ^ 52) in *.
    assert (0 < P) as HP by (unfold P; lia).
    set (X := Qnum x) in *. set (Y := Zpos (Qden x)) in *.
    assert (0 < Y) as HY by (unfold Y; lia).
    set (Tz := Z.pos t) in *.
    split; nia.
Qed.

Lemma foldr_Qplus_Permutation (l1 l2 : list Q) :
  l1 ≡ₚ l2 → (foldr Qplus 0 l1 == foldr Qplus 0 l2)%Q.
Proof.
  induction 1 as [|x l1 l2 _ IH|x y l|l1 l2 l3 _ IH1 _ IH2]; simpl.
  - reflexivity.
  - by rewrite IH.
  - ring.
  - by rewrite IH1.
Qed.

End Redondeo.

(** ** The scenario dataset *)

(** In one chunk: the mean age of (A, M) is 25, the age-10 row counts in
    the dependency numerator, each aged row falls in one bracket, and the
    row without age counts in its stratum only. *)
Lemma escenario_un_chunk :
  campo (λ f, (es_genero <$> edad_estadisticas f, es_mean <$> edad_estadisticas f))
    (combinar_resultados [procesar_chunk 2025 Ejemplos.escenario])
  = Some (["F"; "M"]%string, [70 # 1; 50 # 2])
  ∧ p_dependencia (procesar_chunk 2025 Ejemplos.escenario) = (2, 1)
  ∧ p_tramos (procesar_chunk 2025 Ejemplos.escenario)
    = {[ ("A", "M", "0-17")%string := 1; ("A", "M", "36-60")%string := 1;
         ("A", "F", "61+")%string := 1 ]}
  ∧ p_estrato (procesar_chunk 2025 Ejemplos.escenario)
    = {[ "1"%string := 2; "2"%string := 1; "3"%string := 1 ]}.
Proof. split_and!; vm_compute; reflexivity. Qed.

(** ** The classifiers *)

(** The labels of the quinquennial groups below 90, in increasing order. *)
Lemma tabla_quinquenal_label (k : Z) :
  0 ≤ k < 18 →
  String.append (py_str (k * 5)) (String.append "-" (py_str (k * 5 + 4)))
  = nth (Z.to_nat k)
      ["0-4"; "5-9"; "10-14"; "15-19"; "20-24"; "25-29"; "30-34"; "35-39";
       "40-44"; "45-49"; "50-54"; "55-59"; "60-64"; "65-69"; "70-74";
       "75-79"; "80-84"; "85-89"]%string ""%string.
Proof.
  intros Hk.
  assert (k = 0 ∨ k = 1 ∨ k = 2 ∨ k = 3 ∨ k = 4 ∨ k = 5 ∨ k = 6 ∨ k = 7 ∨ k = 8
          ∨ k = 9 ∨ k = 10 ∨ k = 11 ∨ k = 12 ∨ k = 13 ∨ k = 14 ∨ k = 15
          ∨ k = 16 ∨ k = 17) as Hcases by lia.
  repeat (destruct Hcases as [->|Hcases]; [reflexivity|]). by subst.
Qed.

(** C8: the age-bracket classifier sends every age below 18 to "0-17",
    ages 18 to 35 to "18-35", ages 36 to 60 to "36-60", every age above 60
    to "61+", and a missing age to no bracket, so that the row is left out
    of the bracket keys; the six boundary ages 17, 18, 35, 36, 60, 61 fall
    in "0-17", "18-35", "18-35", "36-60", "36-60", "61+". *)
Theorem C8_clasificar_edad_tramos :
  (∀ e : Z, e < 18 → clasificar_edad (Some e) = Some "0-17"%string)
  ∧ (∀ e : Z, 18 ≤ e ≤ 35 → clasificar_edad (Some e) = Some "18-35"%string)
  ∧ (∀ e : Z, 36 ≤ e ≤ 60 → clasificar_edad (Some e) = Some "36-60"%string)
  ∧ (∀ e : Z, 60 < e → clasificar_edad (Some e) = Some "61+"%string)
  ∧ clasificar_edad None = None
  ∧ (∀ anio f, edad_de anio f = None → claves_tramo anio [f] = [])
  ∧ clasificar_edad <$> [Some 17; Some 18; Some 35; Some 36; Some 60; Some 61]
    = [Some "0-17"; Some "18-35"; Some "18-35"; Some "36-60"; Some "36-60";
       Some "61+"]%string.
Proof.
  split_and!; try reflexivity.
  - intros e He. unfold clasificar_edad.
    by rewrite (proj2 (Z.ltb_lt e 18)) by lia.
  - intros e He. unfold clasificar_edad.
    rewrite (proj2 (Z.ltb_ge e 18)) by lia.
    by rewrite (proj2 (Z.leb_le e 35)) by lia.
  - intros e He. unfold clasificar_edad.
    rewrite (proj2 (Z.ltb_ge e 18)) by lia.
    rewrite (proj2 (Z.leb_gt e 35)) by lia.
    by rewrite (proj2 (Z.leb_le e 60)) by lia.
  - intros e He. unfold clasificar_edad.
    rewrite (proj2 (Z.ltb_ge e 18)) by lia.
    rewrite (proj2 (Z.leb_gt e 35)) by lia.
    by rewrite (proj2 (Z.leb_gt e 60)) by lia.
  - intros anio f Hf. unfold claves_tramo. simpl. by rewrite Hf.
Qed.

Lemma C8_clasificar_edad_tramos_witness :
  clasificar_edad (Some (-3)) = Some "0-17"%string
  ∧ clasificar_edad (Some 20) = Some "18-35"%string
  ∧ clasificar_edad (Some 47) = Some "36-60"%string
  ∧ clasificar_edad (Some 75) = Some "61+"%string.
Proof.
  destruct C8_clasificar_edad_tramos as (H1 & H2 & H3 & H4 & _).
  split_and!.
  - apply (H1 (-3)). lia.
  - apply (H2 20). lia.
  - apply (H3 47). lia.
  - apply (H4 75). lia.
Defined.

(** C9: the quinquennial classifier sends every age of 90 or more to
    "90+", every age from 0 to 89 to the five-year group running from
    floor(age/5)*5 to floor(age/5)*5 + 4 (one of "0-4", ..., "85-89"), and
    every negative or missing age to no group, so that the row is left out
    of the pyramid keys; age 89 falls in "85-89" and age 90 in "90+". *)
Theorem C9_clasificar_grupo_5anios :
  (∀ e : Z, 90 ≤ e → clasificar_grupo_5anios (Some e) = Some "90+"%string)
  ∧ (∀ e : Z, 0 ≤ e < 90 →
       clasificar_grupo_5anios (Some e)
       = Some (String.append (py_str (e / 5 * 5))
                 (String.append "-" (py_str (e / 5 * 5 + 4))))
       ∧ clasificar_grupo_5anios (Some e)
         = Some (nth (Z.to_nat (e / 5))
             ["0-4"; "5-9"; "10-14"; "15-19"; "20-24"; "25-29"; "30-34";
              "35-39"; "40-44"; "45-49"; "50-54"; "55-59"; "60-64"; "65-69";
              "70-74"; "75-79"; "80-84"; "85-89"]%string ""%string))
  ∧ (∀ e : Z, e < 0 → clasificar_grupo_5anios (Some e) = None)
  ∧ clasificar_grupo_5anios None = None
  ∧ (∀ anio f e, edad_de anio f = Some e → e < 0 → claves_piramide anio [f] = [])
  ∧ (∀ anio f, edad_de anio f = None → claves_piramide anio [f] = [])
  ∧ clasificar_grupo_5anios (Some 89) = Some "85-89"%string
  ∧ clasificar_grupo_5anios (Some 90) = Some "90+"%string
  ∧ clasificar_grupo_5anios (Some (-1)) = None.
Proof.
  assert (∀ e : Z, e < 0 → clasificar_grupo_5anios (Some e) = None) as Hneg.
  { intros e He. unfold clasificar_grupo_5anios.
    by rewrite (proj2 (Z.ltb_lt e 0)) by lia. }
  assert (∀ e : Z, 0 ≤ e < 90 →
    clasificar_grupo_5anios (Some e)
    = Some (String.append (py_str (e / 5 * 5))
              (String.append "-" (py_str (e / 5 * 5 + 4))))) as Hmid.
  { intros e He. unfold clasificar_grupo_5anios.
    rewrite (proj2 (Z.ltb_ge e 0)) by lia.
    assert ((e >=? 90) = false) as -> by lia. done. }
  split_and!; try reflexivity; try done.
  - intros e He. unfold clasificar_grupo_5anios.
    rewrite (proj2 (Z.ltb_ge e 0)) by lia.
    assert ((e >=? 90) = true) as -> by lia. done.
  - intros e He. split; [by apply Hmid|].
    rewrite Hmid by done. f_equal. apply tabla_quinquenal_label.
    split; [apply Z.div_pos; lia | apply Z.div_lt_upper_bound; lia].
  - intros anio f e Hf He. unfold claves_piramide. simpl.
    rewrite Hf, (Hneg e He). done.
  - intros anio f Hf. unfold claves_piramide. simpl. by rewrite Hf.
Qed.

Lemma C9_clasificar_grupo_5anios_witness :
  clasificar_grupo_5anios (Some 123) = Some "90+"%string
  ∧ clasificar_grupo_5anios (Some 42) = Some "40-44"%string
  ∧ clasificar_grupo_5anios (Some (-7)) = None.
Proof.
  destruct C9_clasificar_grupo_5anios as (H1 & H2 & H3 & _).
  split_and!.
  - apply (H1 123). lia.
  - apply (proj2 (H2 42 ltac:(lia))).
  - apply (H3 (-7)). lia.
Defined.

(** C10: a row whose age is negative is classified "0-17" by the bracket
    classifier and is left out by the quinquennial classifier; adding such
    a row to a chunk raises the chunk's "0-17" bracket count of its
    (species, gender) by one, raises the dependency numerator by one,
    leaves the dependency denominator alone and leaves the pyramid
    unchanged. *)
Theorem C10_edad_negativa (anio : Z) (f : Fila) (e : Z) (chunk : list Fila) :
  edad_de anio f = Some e → e < 0 →
  clasificar_edad (Some e) = Some "0-17"%string
  ∧ clasificar_grupo_5anios (Some e) = None
  ∧ cuenta (p_tramos (procesar_chunk anio (f :: chunk))) (especie f, genero f, "0-17"%string)
    = cuenta (p_tramos (procesar_chunk anio chunk)) (especie f, genero f, "0-17"%string) + 1
  ∧ (p_dependencia (procesar_chunk anio (f :: chunk))).1
    = (p_dependencia (procesar_chunk anio chunk)).1 + 1
  ∧ (p_dependencia (procesar_chunk anio (f :: chunk))).2
    = (p_dependencia (procesar_chunk anio chunk)).2
  ∧ p_piramide (procesar_chunk anio (f :: chunk)) = p_piramide (procesar_chunk anio chunk).
Proof.
  intros Hf He.
  assert (clasificar_edad (Some e) = Some "0-17"%string) as Htramo.
  { unfold clasificar_edad. by rewrite (proj2 (Z.ltb_lt e 18)) by lia. }
  assert (clasificar_grupo_5anios (Some e) = None) as Hgrupo.
  { unfold clasificar_grupo_5anios. by rewrite (proj2 (Z.ltb_lt e 0)) by lia. }
  split_and!; [done | done | | | |].
  - cbn [procesar_chunk p_tramos]. rewrite !cuenta_contar.
    cbn [omap list_omap]. rewrite Hf, Htramo. cbn [fmap option_fmap option_map].
    rewrite ocurrencias_cons, decide_True by done. lia.
  - cbn [procesar_chunk p_dependencia fst]. rewrite !fmap_cons, Hf.
    unfold contar_si. cbn [List.filter from_option].
    rewrite (proj2 (Z.ltb_lt e 15)) by lia.
    rewrite (proj2 (Z.ltb_ge 64 e)) by lia. cbn [length]. lia.
  - cbn [procesar_chunk p_dependencia snd]. rewrite !fmap_cons, Hf.
    unfold contar_si. cbn [List.filter from_option].
    by rewrite (proj2 (Z.leb_gt 15 e)) by lia.
  - cbn [procesar_chunk p_piramide]. cbn [omap list_omap].
    rewrite Hf, Hgrupo. done.
Qed.

Lemma C10_edad_negativa_witness :
  clasificar_edad (Some (-5)) = Some "0-17"%string
  ∧ clasificar_grupo_5anios (Some (-5)) = None
  ∧ cuenta (p_tramos (procesar_chunk 2025
      [Ejemplos.fila "1000" "2000" (Some 2030) "A" "M"])) ("A", "M", "0-17")%string
    = cuenta (p_tramos (procesar_chunk 2025 [])) ("A", "M", "0-17")%string + 1
  ∧ (p_dependencia (procesar_chunk 2025
      [Ejemplos.fila "1000" "2000" (Some 2030) "A" "M"])).1
    = (p_dependencia (procesar_chunk 2025 [])).1 + 1
  ∧ (p_dependencia (procesar_chunk 2025
      [Ejemplos.fila "1000" "2000" (Some 2030) "A" "M"])).2
    = (p_dependencia (procesar_chunk 2025 [])).2
  ∧ p_piramide (procesar_chunk 2025 [Ejemplos.fila "1000" "2000" (Some 2030) "A" "M"])
    = p_piramide (procesar_chunk 2025 []).
Proof.
  apply (C10_edad_negativa 2025 (Ejemplos.fila "1000" "2000" (Some 2030) "A" "M") (-5) []).
  - reflexivity.
  - lia.
Defined.

(** ** When the combiner returns, and what it returns *)

Section Retorno.

Lemma combinar_Ok_inv (rs : list Parcial) (f : Final) :
  combinar_resultados rs = Ok f →
  let a := foldl acumular acumulador_inicial rs in
  conteo_estrato f = total_estrato a
  ∧ porcentaje_estrato f
    = (λ v, Py.round (Py.truediv (v * 100) (Py.suma_valores (total_estrato a))) 2)
        <$> total_estrato a
  ∧ edad_estadisticas f = edad_registros a
  ∧ tramos f = tramos_total a
  ∧ indice_dependencia f
    = (if 0 <? dep_denominador a
       then Some (Py.round (Py.truediv (dep_numerador a) (dep_denominador a)) 3)
       else None)
  ∧ top_viajes f = take TOP_K (Py.sorted_desc (viajes_total a))
  ∧ Py.sum_series (piramide_total a) = Some (piramide_edades f).
Proof.
  intros Hc a. unfold combinar_resultados in Hc. fold a in Hc.
  destruct (negb (bool_decide (total_estrato a = ∅))
            && (Py.suma_valores (total_estrato a) =? 0)); [done|].
  destruct (Py.sum_series (piramide_total a)) as [s|]; [|done].
  injection Hc as <-. done.
Qed.

(** On the partial aggregates of a non-empty list of chunks the
    combiner raises nothing. *)
Lemma combinar_procesar_Ok (anio : Z) (chunks : list (list Fila)) :
  chunks ≠ [] → ∃ f, combinar_resultados (procesar_chunk anio <$> chunks) = Ok f.
Proof.
  intros Hne. unfold combinar_resultados.
  fold (acumulado anio chunks). rewrite acumulado_estrato.
  rewrite suma_valores_contar.
  assert (negb (bool_decide (Py.contar (omap estrato_de (concat chunks)) = ∅))
          && (Z.of_nat (length (omap estrato_de (concat chunks))) =? 0) = false) as ->.
  { destruct (omap estrato_de (concat chunks)) as [|x l] eqn:Hl.
    - rewrite bool_decide_eq_true_2; done.
    - apply andb_false_intro2. simpl. lia. }
  unfold acumulado. rewrite foldl_acumular_piramide.
  destruct chunks as [|c chunks]; [done|]. simpl. eauto.
Qed.

(** When every chunk holds a row, the run is the combiner on the partial
    aggregates of the chunks. *)
Lemma pool_map_Ok (anio : Z) (chunks : list (list Fila)) :
  Forall (λ c, c ≠ []) chunks →
  pool_map_procesar_chunk anio chunks = Ok (procesar_chunk anio <$> chunks).
Proof.
  intros Hall. unfold pool_map_procesar_chunk.
  assert (forallb (λ c : list Fila, negb (bool_decide (c = []))) chunks = true) as ->; [|done].
  induction Hall as [|c chunks Hc _ IH]; [done|].
  cbn [forallb]. by rewrite IH, bool_decide_eq_false_2.
Qed.

Lemma pool_map_TypeError (anio : Z) (chunks : list (list Fila)) :
  [] ∈ chunks → pool_map_procesar_chunk anio chunks = Raise TypeError.
Proof.
  intros Hin. unfold pool_map_procesar_chunk.
  assert (forallb (λ c : list Fila, negb (bool_decide (c = []))) chunks = false) as ->; [|done].
  induction chunks as [|c chunks IH]; [by apply elem_of_nil in Hin|].
  cbn [forallb]. apply elem_of_cons in Hin as [<-|Hin].
  - by rewrite bool_decide_eq_true_2.
  - rewrite IH by done. apply andb_false_r.
Qed.

Lemma ejecutar_chunks (anio : Z) (chunks : list (list Fila)) :
  Forall (λ c, c ≠ []) chunks →
  ejecutar anio chunks = combinar_resultados (procesar_chunk anio <$> chunks).
Proof. intros Hall. unfold ejecutar. by rewrite pool_map_Ok. Qed.

Lemma ejecutar_TypeError (anio : Z) (chunks : list (list Fila)) :
  [] ∈ chunks → ejecutar anio chunks = Raise TypeError.
Proof. intros Hin. unfold ejecutar. by rewrite pool_map_TypeError. Qed.

Lemma chunk_vacio_dec (chunks : list (list Fila)) :
  Forall (λ c, c ≠ []) chunks ∨ [] ∈ chunks.
Proof.
  induction chunks as [|c chunks [IH|IH]].
  - left. constructor.
  - destruct c as [|r c]; [right; left|left; by constructor].
  - right. by right.
Qed.

(** On a non-empty list of chunks that all hold a row, the run
    returns. *)
Lemma ejecutar_Ok (anio : Z) (chunks : list (list Fila)) :
  chunks ≠ [] → Forall (λ c, c ≠ []) chunks →
  ∃ f, ejecutar anio chunks = Ok f
       ∧ combinar_resultados (procesar_chunk anio <$> chunks) = Ok f.
Proof.
  intros Hne Hall. destruct (combinar_procesar_Ok anio chunks Hne) as [f Hf].
  exists f. by rewrite ejecutar_chunks.
Qed.

End Retorno.

(** ** Partition invariance *)





(** ** Age statistics *)

(** The age statistics of the result are the rows of the partial
    aggregates, one after the other. *)
Lemma combinar_edad_estadisticas (rs : list Parcial) (f : Final) :
  combinar_resultados rs = Ok f → edad_estadisticas f = concat (p_edades <$> rs).
Proof.
  intros Hf. apply combinar_Ok_inv in Hf as (_ & _ & -> & _).
  by rewrite foldl_acumular_edades.
Qed.

(** C2 (failing input): for the group (A, M) split over two chunks, with
    ages 10 and 40, the combined result holds one entry per chunk, with
    means 10 and 40; the mean of the group, total sum over total count, is
    25, and no entry reports it. *)
Theorem C2_media_concatenada :
  campo edad_estadisticas
    (combinar_resultados
       (procesar_chunk 2025 <$> [[Ejemplos.r_2000_1000]; [Ejemplos.r_1000_2000]]))
  = Some [ {| es_especie := "A"; es_genero := "M"; es_mean := 10 # 1; es_median := 10 # 1 |};
           {| es_especie := "A"; es_genero := "M"; es_mean := 40 # 1; es_median := 40 # 1 |} ]
  ∧ omap (edad_de 2025) [Ejemplos.r_2000_1000; Ejemplos.r_1000_2000] = [10; 40]
  ∧ (Py.mean [10; 40]%Z == 25)%Q
  ∧ ¬ (10 # 1 == 25)%Q ∧ ¬ (40 # 1 == 25)%Q.
Proof.
  split_and!; try (vm_compute; reflexivity); intros Hq; vm_compute in Hq; discriminate.
Qed.

(** C3 (failing input): for the group (A, M) split over two chunks, with
    ages 10, 20, 90 and 40, 50, the combined result holds the median of
    each chunk, 20 and 45 (held as 90/2); the median of the five ages is 40,
    and no entry reports it. *)
Theorem C3_mediana_por_chunk :
  campo (λ f, es_median <$> edad_estadisticas f)
    (combinar_resultados (procesar_chunk 2025 <$> Ejemplos.chunks_mediana))
  = Some [20 # 1; 90 # 2]
  ∧ omap (edad_de 2025) (concat Ejemplos.chunks_mediana) = [10; 20; 90; 40; 50]
  ∧ Py.median [10; 20; 90; 40; 50] = 40 # 1
  ∧ ¬ (20 # 1 == 40 # 1)%Q ∧ ¬ (90 # 2 == 40 # 1)%Q.
Proof.
  split_and!; try (vm_compute; reflexivity); intros Hq; vm_compute in Hq; discriminate.
Qed.

(** ** Order of delivery of the partial aggregates *)



(** ** The pyramid *)

(** C4 (failing input): two chunks of one row each, one in the group
    "0-4" and one in the group "5-9"; each pyramid holds a key the other
    lacks, and the combined pyramid holds NaN under both keys, where the
    sum over the union of keys is 1 and 1. *)
Theorem C4_piramide_nan :
  p_piramide <$> (procesar_chunk 2025 <$> Ejemplos.chunks_piramide)
  = [ {[ ("0-4", "MACHO")%string := Some 1 ]}; {[ ("5-9", "MACHO")%string := Some 1 ]} ]
  ∧ campo piramide_edades
      (combinar_resultados (procesar_chunk 2025 <$> Ejemplos.chunks_piramide))
    = Some ({[ ("0-4", "MACHO")%string := None; ("5-9", "MACHO")%string := None ]} : Serie).
Proof.
  split; vm_compute; reflexivity.
Qed.

(** ** The dependency index *)

(** C5 (amended): on a non-empty list of chunks that all hold a row the
    run returns, and the dependency index it reports is the merged
    numerator (rows of the whole dataset aged under 15 or over 64)
    divided by the merged denominator (rows aged 15 to 64) as a [float],
    rounded to 3 decimals: a whole number of thousandths within 0.0005 of
    that [float], which is itself within a relative [2^-53] of the exact
    quotient. The index is null when the denominator is 0. *)
Theorem C5_indice_dependencia (anio : Z) (chunks : list (list Fila)) :
  chunks ≠ [] → Forall (λ c, c ≠ []) chunks →
  let edades := edad_de anio <$> concat chunks in
  let num := contar_si (λ e, e <? 15) edades + contar_si (λ e, 64 <? e) edades in
  let den := contar_si (λ e, (15 <=? e) && (e <=? 64)) edades in
  ∃ f, ejecutar anio chunks = Ok f
       ∧ (den = 0 → indice_dependencia f = None)
       ∧ (0 < den →
          indice_dependencia f = Some (Py.round (Py.truediv num den) 3)
          ∧ (∃ h : Z, Py.round (Py.truediv num den) 3 = h # 1000)
          ∧ (Qabs (Py.round (Py.truediv num den) 3 - Py.truediv num den)
             <= 1 # 2000)%Q
          ∧ (Qabs (Py.truediv num den - inject_Z num / inject_Z den)
             <= (inject_Z num / inject_Z den) * (1 # 2 ^ 53))%Q).
Proof.
  intros Hne Hall edades num den.
  destruct (ejecutar_Ok anio chunks Hne Hall) as (f & Hr & Hf). exists f.
  split; [done|].
  apply combinar_Ok_inv in Hf as (_ & _ & _ & _ & Hi & _).
  fold (acumulado anio chunks) in Hi.
  rewrite acumulado_numerador, acumulado_denominador in Hi.
  fold edades in Hi. fold num in Hi. fold den in Hi.
  assert (0 ≤ num) as Hnum by (unfold num, contar_si; lia).
  split.
  - intros H0. by rewrite Hi, H0.
  - intros Hpos. rewrite Hi, (proj2 (Z.ltb_lt 0 den)) by done.
    split_and!; [done | | |].
    + destruct (round_truediv num den 3) as (h & Hh & _); [lia..|]. by exists h.
    + apply (round_error _ 3). lia.
    + by apply truediv_error.
Qed.

Lemma C5_indice_dependencia_witness :
  ∃ f, ejecutar 2025 Ejemplos.chunks_dependencia = Ok f
       ∧ (3 = 0 → indice_dependencia f = None)
       ∧ (0 < 3 →
          indice_dependencia f = Some (Py.round (Py.truediv 1 3) 3)
          ∧ (∃ h : Z, Py.round (Py.truediv 1 3) 3 = h # 1000)
          ∧ (Qabs (Py.round (Py.truediv 1 3) 3 - Py.truediv 1 3) <= 1 # 2000)%Q
          ∧ (Qabs (Py.truediv 1 3 - inject_Z 1 / inject_Z 3)
             <= (inject_Z 1 / inject_Z 3) * (1 # 2 ^ 53))%Q).
Proof.
  apply (C5_indice_dependencia 2025 Ejemplos.chunks_dependencia).
  - discriminate.
  - repeat constructor; discriminate.
Defined.

(** C5 as stated fails: with one row under 15 and three rows aged 15 to
    64 the reported index is 0.333, which is not 1/3. *)
Lemma C5_indice_contraejemplo :
  contar_si (λ e, e <? 15) (edad_de 2025 <$> concat Ejemplos.chunks_dependencia)
  + contar_si (λ e, 64 <? e) (edad_de 2025 <$> concat Ejemplos.chunks_dependencia) = 1
  ∧ contar_si (λ e, (15 <=? e) && (e <=? 64))
      (edad_de 2025 <$> concat Ejemplos.chunks_dependencia) = 3
  ∧ campo indice_dependencia
      (combinar_resultados (procesar_chunk 2025 <$> Ejemplos.chunks_dependencia))
    = Some (Some (333 # 1000))
  ∧ ¬ (333 # 1000 == 1 # 3)%Q.
Proof.
  split_and!; try (vm_compute; reflexivity).
  intros Hq. vm_compute in Hq. discriminate.
Qed.

(** ** The top flows *)

Section TopViajes.
Implicit Types (rs : list Parcial) (vt : list (string * string * Z)).

Lemma foldl_sumar_viajes_parciales rs vt k :
  Py.odict_get k (foldl (λ d p, sumar_viajes (p_viajes p) d) vt rs)
  = mas (Py.odict_get k vt) (total_viajes k (concat (p_viajes <$> rs))).
Proof.
  revert vt. induction rs as [|p rs IH]; intros vt.
  - simpl. by rewrite mas_None_r.
  - rewrite fmap_cons. cbn [foldl concat]. rewrite IH. unfold sumar_viajes at 1.
    rewrite foldl_odict_add_get, total_viajes_app. apply mas_assoc.
Qed.

(** The accumulated dictionary holds, for each (origin, destination),
    the sum of the counts the partial aggregates report for it. *)
Lemma viajes_total_get rs k :
  Py.odict_get k (viajes_total (foldl acumular acumulador_inicial rs))
  = total_viajes k (concat (p_viajes <$> rs)).
Proof.
  rewrite foldl_acumular_viajes, foldl_sumar_viajes_parciales. simpl.
  by destruct (total_viajes k _).
Qed.

Lemma total_viajes_parciales_Permutation rs rs' k :
  rs ≡ₚ rs' →
  total_viajes k (concat (p_viajes <$> rs)) = total_viajes k (concat (p_viajes <$> rs')).
Proof.
  induction 1 as [|p rs1 rs2 _ IH|p q rs1|rs1 rs2 rs3 _ IH1 _ IH2].
  - done.
  - rewrite !fmap_cons. cbn [concat]. by rewrite !total_viajes_app, IH.
  - rewrite !fmap_cons. cbn [concat]. rewrite !total_viajes_app.
    rewrite <- !mas_assoc. f_equal. apply mas_comm.
  - by rewrite IH1.
Qed.

Lemma StronglySorted_take {A} (R : relation A) (l : list A) n :
  StronglySorted R l → StronglySorted R (take n l).
Proof.
  intros Hl. rewrite <- (take_drop n l) in Hl. by apply StronglySorted_app_1_l in Hl.
Qed.

(** Two accumulated dictionaries with the same entries yield top lists
    with the same counts, and the same entries when nothing is cut. *)
Lemma top_de_Permutation vt1 vt2 :
  vt1 ≡ₚ vt2 →
  (take TOP_K (Py.sorted_desc vt1)).*2 = (take TOP_K (Py.sorted_desc vt2)).*2
  ∧ ((length (take TOP_K (Py.sorted_desc vt1)) < TOP_K)%nat →
     take TOP_K (Py.sorted_desc vt1) ≡ₚ take TOP_K (Py.sorted_desc vt2)).
Proof.
  intros Hp.
  assert (Py.sorted_desc vt1 ≡ₚ Py.sorted_desc vt2) as Hs
    by (by rewrite !sorted_desc_Permutation).
  split.
  - rewrite !fmap_take. f_equal. by apply sorted_desc_counts.
  - rewrite length_take. intros Hlen.
    pose proof (Permutation_length Hs) as Hl.
    rewrite !take_ge by lia. done.
Qed.

End TopViajes.

(** C6 (amended): when the combiner returns, its accumulated flow
    dictionary holds for each (origin, destination) the sum of the counts
    of all partial aggregates; the top flows are the first 10000 entries of
    that dictionary sorted by descending count, entries of equal count
    keeping the order in which their keys entered the dictionary (no
    secondary key is applied); delivering the same partial aggregates in
    another order yields the same sequence of counts and, when fewer than
    10000 flows are reported, the same flows up to the order of flows of
    equal count. *)
Theorem C6_top_viajes (rs : list Parcial) (f : Final) :
  combinar_resultados rs = Ok f →
  let vt := viajes_total (foldl acumular acumulador_inicial rs) in
  (∀ k, Py.odict_get k vt = total_viajes k (concat (p_viajes <$> rs)))
  ∧ NoDup vt.*1
  ∧ (∃ s, top_viajes f = take (Z.to_nat 10000) s
          ∧ s ≡ₚ vt
          ∧ StronglySorted desc s
          ∧ ∀ c, filter (λ x, x.2 = c) s = filter (λ x, x.2 = c) vt)
  ∧ StronglySorted desc (top_viajes f)
  ∧ Z.of_nat (length (top_viajes f)) ≤ 10000
  ∧ (∀ rs' f', rs ≡ₚ rs' → combinar_resultados rs' = Ok f' →
       (top_viajes f).*2 = (top_viajes f').*2
       ∧ (Z.of_nat (length (top_viajes f)) < 10000 → top_viajes f ≡ₚ top_viajes f')).
Proof.
  intros Hf vt.
  apply combinar_Ok_inv in Hf as (_ & _ & _ & _ & _ & Hv & _). fold vt in Hv.
  split_and!.
  - intros k. apply viajes_total_get.
  - apply viajes_total_NoDup.
  - exists (Py.sorted_desc vt). split_and!; [done| | |].
    + apply sorted_desc_Permutation.
    + apply sorted_desc_sorted.
    + apply sorted_desc_stable.
  - rewrite Hv. apply StronglySorted_take, sorted_desc_sorted.
  - rewrite Hv, length_take. unfold TOP_K. lia.
  - intros rs' f' Hp Hf'.
    apply combinar_Ok_inv in Hf' as (_ & _ & _ & _ & _ & Hv' & _).
    assert (vt ≡ₚ viajes_total (foldl acumular acumulador_inicial rs')) as Hvt.
    { apply odict_Permutation; [apply viajes_total_NoDup..|].
      intros k. unfold vt. rewrite !viajes_total_get.
      by apply total_viajes_parciales_Permutation. }
    destruct (top_de_Permutation _ _ Hvt) as [Hc Hl].
    rewrite Hv, Hv'. split; [done|].
    intros Hlen. apply Hl. unfold TOP_K in *. lia.
Qed.

Lemma C6_top_viajes_witness :
  ∃ f, combinar_resultados
         (procesar_chunk 2025 <$> [[Ejemplos.r_2000_1000]; [Ejemplos.r_1000_2000]]) = Ok f
       ∧ StronglySorted desc (top_viajes f)
       ∧ Z.of_nat (length (top_viajes f)) ≤ 10000.
Proof.
  destruct (combinar_resultados
              (procesar_chunk 2025 <$> [[Ejemplos.r_2000_1000]; [Ejemplos.r_1000_2000]]))
    as [f|e] eqn:Hf.
  - exists f. split; [reflexivity|].
    pose proof (C6_top_viajes _ f Hf) as (_ & _ & _ & Hs & Hl & _).
    split; [exact Hs | exact Hl].
  - vm_compute in Hf. discriminate.
Defined.

(** C6 as stated fails: the same two partial aggregates, each holding one
    flow of count 1, delivered in the two possible orders, yield the two
    flows in opposite orders. *)
Lemma C6_orden_contraejemplo :
  [procesar_chunk 2025 [Ejemplos.r_2000_1000]; procesar_chunk 2025 [Ejemplos.r_1000_2000]]
  ≡ₚ [procesar_chunk 2025 [Ejemplos.r_1000_2000]; procesar_chunk 2025 [Ejemplos.r_2000_1000]]
  ∧ campo top_viajes
      (combinar_resultados
         [procesar_chunk 2025 [Ejemplos.r_2000_1000];
          procesar_chunk 2025 [Ejemplos.r_1000_2000]])
    = Some [("2000", "1000", 1); ("1000", "2000", 1)]%string
  ∧ campo top_viajes
      (combinar_resultados
         [procesar_chunk 2025 [Ejemplos.r_1000_2000];
          procesar_chunk 2025 [Ejemplos.r_2000_1000]])
    = Some [("1000", "2000", 1); ("2000", "1000", 1)]%string.
Proof.
  split_and!; [apply Permutation_swap | vm_compute; reflexivity..].
Qed.

(** ** Stratum percentages *)

Section Porcentajes.

Lemma suma_redondeos (T : Z) (vs : list Z) :
  0 < T → Forall (λ v, 0 ≤ v) vs →
  ∃ H : Z,
    (foldr Qplus 0 ((λ v, Py.round (Py.truediv (v * 100) T) 2) <$> vs) == H # 100)%Q
    ∧ 2 ^ 53 * Z.abs (H * T - 10000 * foldr Z.add 0 vs)
      ≤ 2 ^ 52 * (Z.of_nat (length vs) * T) + 10000 * foldr Z.add 0 vs.
Proof.
  intros HT Hvs. induction Hvs as [|v vs Hv _ (H & Hsum & Hb)].
  - exists 0. split; [reflexivity | simpl; lia].
  - destruct (round_truediv (v * 100) T 2) as (h & Hh & Hhb); [lia..|].
    change (Z.to_pos (10 ^ 2)) with 100%positive in Hh.
    change (10 ^ 2) with 100 in Hhb.
    exists (h + H). rewrite fmap_cons. cbn [foldr length]. split.
    + rewrite Hsum, Hh. unfold Qeq, Qplus. cbn [Qnum Qden]. lia.
    + set (n := Z.of_nat (length vs)) in *.
      replace (Z.of_nat (S (length vs))) with (n + 1) by lia.
      set (s := foldr Z.add 0 vs) in *.
      change (2 ^ 53) with 9007199254740992 in *.
      change (2 ^ 52) with 4503599627370496 in *.
      set (nT := n * T) in *.
      replace ((h + H) * T - 10000 * (v + s))
        with ((h * T - v * 100 * 100) + (H * T - 10000 * s)) by ring.
      pose proof (Z.abs_triangle (h * T - v * 100 * 100) (H * T - 10000 * s)).
      lia.
Qed.

(** The reported percentages add up to 100 within half a hundredth per
    stratum. *)
Lemma suma_porcentajes_error (m : gmap string Z) :
  (∀ k v, m !! k = Some v → 0 ≤ v) → 0 < Py.suma_valores m →
  (Qabs (suma_porcentajes
           ((λ v, Py.round (Py.truediv (v * 100) (Py.suma_valores m)) 2) <$> m) - 100)
   <= Z.of_nat (size m) # 200)%Q.
Proof.
  intros Hpos HT. unfold suma_porcentajes.
  set (g := λ v, Py.round (Py.truediv (v * 100) (Py.suma_valores m)) 2).
  assert ((map_to_list (g <$> m)).*2 ≡ₚ g <$> (map_to_list m).*2) as Hp.
  { rewrite map_to_list_fmap, <- !list_fmap_compose. done. }
  rewrite (foldr_Qplus_Permutation _ _ Hp).
  assert (Forall (λ v, 0 ≤ v) (map_to_list m).*2) as Hvs.
  { apply Forall_fmap, Forall_forall. intros [k v] Hkv. simpl.
    apply elem_of_map_to_list in Hkv. by apply (Hpos k). }
  destruct (suma_redondeos (Py.suma_valores m) (map_to_list m).*2 HT Hvs) as (H & Hs & Hb).
  fold g in Hs. rewrite Hs. clear Hs Hp g.
  fold (Py.suma_valores m) in Hb.
  rewrite length_fmap, length_map_to_list in Hb.
  set (T := Py.suma_valores m) in *. set (n := Z.of_nat (size m)) in *.
  assert (2 * Z.abs (H - 10000) ≤ n) as Hfin.
  { change (2 ^ 53) with 9007199254740992 in *.
    change (2 ^ 52) with 4503599627370496 in *.
    replace (H * T - 10000 * T) with (T * (H - 10000)) in Hb by ring.
    rewrite Z.abs_mul, (Z.abs_eq T) in Hb by lia.
    assert (T * (9007199254740992 * Z.abs (H - 10000))
            ≤ T * (4503599627370496 * n + 10000)) as Hc by lia.
    apply Z.mul_le_mono_pos_l in Hc; lia. }
  apply Qabs_Qle_condition. unfold Qle, Qminus, Qplus, Qopp. cbn [Qnum Qden].
  split; lia.
Qed.

Lemma contar_valores `{Countable K} (l : list K) (k : K) (v : Z) :
  Py.contar l !! k = Some v → v = ocurrencias k l ∧ 1 ≤ v.
Proof.
  rewrite contar_lookup. unfold entrada. case_decide as Hin; [|done].
  intros [= <-]. split; [done|]. pose proof (ocurrencias_pos k l Hin). lia.
Qed.

End Porcentajes.

(** C7 (amended): on a dataset with at least one stratum, split into
    chunks that all hold a row, the run returns; the stratum counts are
    the counts over the whole dataset; each stratum percentage is that
    count times 100 divided by the total population as a [float] and
    rounded to 2 decimals, hence within 0.005 of that [float], which is
    within a relative [2^-53] of the exact share; the percentages add up
    to 100 within 0.005 per stratum, hence within 0.1 when there are at
    most 20 strata. *)
Theorem C7_porcentaje_estrato (anio : Z) (chunks : list (list Fila)) :
  estratos (concat chunks) ≠ [] → Forall (λ c, c ≠ []) chunks →
  let N := Z.of_nat (length (estratos (concat chunks))) in
  ∃ f, ejecutar anio chunks = Ok f
       ∧ (∀ k, conteo_estrato f !! k = entrada k (estratos (concat chunks)))
       ∧ (∀ k, porcentaje_estrato f !! k
               = (λ v, Py.round (Py.truediv (v * 100) N) 2)
                   <$> entrada k (estratos (concat chunks)))
       ∧ (∀ k q, porcentaje_estrato f !! k = Some q →
            let v := ocurrencias k (estratos (concat chunks)) in
            (Qabs (q - Py.truediv (v * 100) N) <= 1 # 200)%Q
            ∧ (Qabs (Py.truediv (v * 100) N - inject_Z (v * 100) / inject_Z N)
               <= (inject_Z (v * 100) / inject_Z N) * (1 # 2 ^ 53))%Q)
       ∧ (Qabs (suma_porcentajes (porcentaje_estrato f) - 100)
          <= Z.of_nat (size (conteo_estrato f)) # 200)%Q
       ∧ ((size (conteo_estrato f) ≤ 20)%nat →
          (Qabs (suma_porcentajes (porcentaje_estrato f) - 100) <= 1 # 10)%Q).
Proof.
  intros HE Hall N.
  assert (chunks ≠ []) as Hne by (by intros ->).
  destruct (ejecutar_Ok anio chunks Hne Hall) as (f & Hr & Hf). exists f.
  split; [done|].
  apply combinar_Ok_inv in Hf as (He & Hp & _).
  fold (acumulado anio chunks) in He, Hp. rewrite acumulado_estrato in He, Hp.
  fold (estratos (concat chunks)) in He, Hp.
  assert (Py.suma_valores (Py.contar (estratos (concat chunks))) = N) as HN
    by apply suma_valores_contar.
  assert (0 < N) as HNpos.
  { unfold N. destruct (estratos (concat chunks)); [done | simpl; lia]. }
  assert (∀ k, porcentaje_estrato f !! k
               = (λ v, Py.round (Py.truediv (v * 100) N) 2)
                   <$> entrada k (estratos (concat chunks))) as Hpk.
  { intros k. rewrite Hp, lookup_fmap, contar_lookup, HN. done. }
  assert (Qabs (suma_porcentajes (porcentaje_estrato f) - 100)
          <= Z.of_nat (size (conteo_estrato f)) # 200)%Q as Hsum.
  { rewrite Hp, He. apply suma_porcentajes_error; [|lia].
    intros k v Hk. apply contar_valores in Hk. lia. }
  split_and!.
  - intros k. by rewrite He, contar_lookup.
  - exact Hpk.
  - intros k q Hq v. rewrite Hpk in Hq. unfold entrada in Hq.
    case_decide as Hin; [|done]. simpl in Hq. injection Hq as <-.
    fold v. split.
    + apply (round_error _ 2). lia.
    + apply truediv_error; [|done].
      pose proof (ocurrencias_pos k _ Hin). unfold v. lia.
  - exact Hsum.
  - intros Hsize. eapply Qle_trans; [exact Hsum|].
    unfold Qle. cbn [Qnum Qden]. lia.
Qed.

Lemma C7_porcentaje_estrato_witness :
  ∃ f, ejecutar 2025 [Ejemplos.escenario] = Ok f
       ∧ (Qabs (suma_porcentajes (porcentaje_estrato f) - 100)
          <= Z.of_nat (size (conteo_estrato f)) # 200)%Q.
Proof.
  destruct (C7_porcentaje_estrato 2025 [Ejemplos.escenario])
    as (f & Hf & _ & _ & _ & Hs & _).
  - discriminate.
  - repeat constructor; discriminate.
  - exists f. split; [exact Hf | exact Hs].
Defined.

(** C7 as stated fails: with thirty-one strata of one row each, every
    percentage is 3.23 and their sum is 100.13, more than 0.1 away
    from 100. *)
Lemma C7_suma_contraejemplo :
  ∃ q : Q,
    campo (λ f, suma_porcentajes (porcentaje_estrato f))
      (combinar_resultados [procesar_chunk 2025 Ejemplos.chunk_31_estratos]) = Some q
    ∧ campo (λ f, size (conteo_estrato f))
        (combinar_resultados [procesar_chunk 2025 Ejemplos.chunk_31_estratos]) = Some 31%nat
    ∧ campo (λ f, porcentaje_estrato f !! "A"%string)
        (combinar_resultados [procesar_chunk 2025 Ejemplos.chunk_31_estratos])
      = Some (Some (323 # 100))
    ∧ (q == 10013 # 100)%Q
    ∧ ¬ (Qabs (q - 100) <= 1 # 10)%Q.
Proof.
  eexists. split; [vm_compute; reflexivity|].
  split_and!; try (vm_compute; reflexivity).
  intros Hq. vm_compute in Hq. by apply Hq.
Qed.

(** * Further properties of the pipeline *)

(** ** Exceptions of the combiner *)

(** X1: the combiner raises [AttributeError] exactly when it is given no
    partial aggregate, and [ZeroDivisionError] exactly when the merged
    stratum counts exist and add up to zero. *)
Theorem combinar_excepciones (rs : list Parcial) :
  (combinar_resultados rs = Raise AttributeError ↔ rs = [])
  ∧ (combinar_resultados rs = Raise ZeroDivisionError
     ↔ total_estrato (foldl acumular acumulador_inicial rs) ≠ ∅
       ∧ Py.suma_valores (total_estrato (foldl acumular acumulador_inicial rs)) = 0).
Proof.
  unfold combinar_resultados.
  rewrite foldl_acumular_piramide. cbn [piramide_total acumulador_inicial app].
  set (a := foldl acumular acumulador_inicial rs).
  destruct (bool_decide (total_estrato a = ∅)) eqn:Hvacio.
  - apply bool_decide_eq_true in Hvacio. cbn [negb andb].
    destruct rs as [|p rs].
    + split; [done|]. split; [done|]. by intros [? _].
    + cbn [fmap list_fmap Py.sum_series]. split; [done|].
      split; [done|]. by intros [? _].
  - apply bool_decide_eq_false in Hvacio. cbn [negb andb].
    destruct (Py.suma_valores (total_estrato a) =? 0) eqn:Hcero.
    + apply Z.eqb_eq in Hcero. split; [|done].
      split; [done|]. intros ->. by destruct Hvacio.
    + apply Z.eqb_neq in Hcero. destruct rs as [|p rs]; [by destruct Hvacio|].
      cbn [fmap list_fmap Py.sum_series]. split; [done|].
      split; [done|]. by intros [_ ?].
Qed.

(** X2: the run never divides by zero, whatever the rows hold; it raises
    [TypeError] exactly when some chunk holds no row, and otherwise
    [AttributeError] exactly when there is no chunk at all; it returns
    exactly when there is at least one chunk and every chunk holds a
    row. *)
Theorem ejecutar_retorna (anio : Z) (chunks : list (list Fila)) :
  ejecutar anio chunks ≠ Raise ZeroDivisionError
  ∧ (ejecutar anio chunks = Raise TypeError ↔ [] ∈ chunks)
  ∧ (ejecutar anio chunks = Raise AttributeError ↔ chunks = [])
  ∧ ((∃ f, ejecutar anio chunks = Ok f)
     ↔ chunks ≠ [] ∧ Forall (λ c, c ≠ []) chunks).
Proof.
  destruct (chunk_vacio_dec chunks) as [Hall|Hin].
  - assert ([] ∉ chunks) as Hout.
    { intros Hin. rewrite Forall_forall in Hall. by apply (Hall [] Hin). }
    rewrite ejecutar_chunks by done.
    destruct chunks as [|c chunks].
    + split_and!; [done | done | done |].
      split; [by intros [f Hf] | by intros [? _]].
    + destruct (combinar_procesar_Ok anio (c :: chunks)) as [f Hf]; [done|].
      rewrite Hf. split_and!; [done | done | done |].
      split; [done | by exists f].
  - rewrite ejecutar_TypeError by done.
    assert (chunks ≠ []) as Hne by (intros ->; by apply elem_of_nil in Hin).
    split_and!; [done | done | done |].
    split; [by intros [f Hf]|].
    intros [_ Hall]. rewrite Forall_forall in Hall. by destruct (Hall [] Hin).
Qed.

(** ** Totals *)

Lemma ocurrencias_le_length `{EqDecision K} (k : K) (l : list K) :
  ocurrencias k l ≤ Z.of_nat (length l).
Proof. unfold ocurrencias. pose proof (length_filter (k =.) l). lia. Qed.

Lemma entrada_Some `{EqDecision K} (k : K) (l : list K) (v : Z) :
  entrada k l = Some v → v = ocurrencias k l ∧ 1 ≤ v ≤ Z.of_nat (length l).
Proof.
  unfold entrada. case_decide as Hin; [|done]. intros [= <-].
  pose proof (ocurrencias_pos k l Hin). pose proof (ocurrencias_le_length k l). lia.
Qed.

Lemma length_claves_tramo (anio : Z) (c : list Fila) :
  length (claves_tramo anio c) = length (edades_validas anio c).
Proof.
  unfold claves_tramo, edades_validas.
  induction c as [|f c IH]; [done|]. cbn [omap list_omap].
  destruct (edad_de anio f) as [e|]; [|done].
  assert (is_Some (clasificar_edad (Some e))) as [t ->].
  { unfold clasificar_edad. repeat case_match; eauto. }
  simpl. by rewrite IH.
Qed.

Lemma length_estratos (l : list Fila) :
  Forall (λ r, cp_origen r ≠ EmptyString) l → length (estratos l) = length l.
Proof.
  unfold estratos. induction 1 as [|r rs Hr _ IH]; [done|]. cbn [omap list_omap].
  unfold estrato_de at 1. destruct (cp_origen r); [done|]. simpl. by rewrite IH.
Qed.

(** X3: in a chunk, every row with an age is counted in exactly one
    bracket and in exactly one of the two dependency counts: the bracket
    counts and the dependency pair both add up to the number of rows that
    have an age. *)
Theorem particion_de_edades (anio : Z) (c : list Fila) :
  Py.suma_valores (p_tramos (procesar_chunk anio c))
  = Z.of_nat (length (edades_validas anio c))
  ∧ (p_dependencia (procesar_chunk anio c)).1 + (p_dependencia (procesar_chunk anio c)).2
    = Z.of_nat (length (edades_validas anio c)).
Proof.
  split.
  - cbn [procesar_chunk p_tramos]. rewrite suma_valores_contar.
    fold (claves_tramo anio c). by rewrite length_claves_tramo.
  - cbn [procesar_chunk p_dependencia fst snd]. unfold edades_validas.
    induction c as [|f c IH]; [done|].
    rewrite !fmap_cons. cbn [omap list_omap].
    unfold contar_si in *. cbn [List.filter].
    destruct (edad_de anio f) as [e|]; cbn [from_option]; [|exact IH].
    destruct (e <? 15) eqn:H1, (64 <? e) eqn:H2, (15 <=? e) eqn:H3, (e <=? 64) eqn:H4;
      cbn [andb length]; lia.
Qed.

(** X4: in the result, the stratum counts add up to the number of rows of
    the dataset that have a stratum (all the rows when no origin code is
    empty), the bracket counts add up to the number of rows that have an
    age, and every count reported is the number of rows of its key and is
    at least 1. *)
Theorem totales_del_resultado (anio : Z) (chunks : list (list Fila)) (f : Final) :
  combinar_resultados (procesar_chunk anio <$> chunks) = Ok f →
  Py.suma_valores (conteo_estrato f) = Z.of_nat (length (estratos (concat chunks)))
  ∧ (Forall (λ r, cp_origen r ≠ EmptyString) (concat chunks) →
     Py.suma_valores (conteo_estrato f) = Z.of_nat (length (concat chunks)))
  ∧ Py.suma_valores (tramos f) = Z.of_nat (length (edades_validas anio (concat chunks)))
  ∧ (∀ k v, conteo_estrato f !! k = Some v →
       v = ocurrencias k (estratos (concat chunks)) ∧ 1 ≤ v)
  ∧ (∀ k v, tramos f !! k = Some v →
       v = ocurrencias k (claves_tramo anio (concat chunks)) ∧ 1 ≤ v).
Proof.
  intros Hf. apply combinar_Ok_inv in Hf as (He & _ & _ & Ht & _).
  fold (acumulado anio chunks) in He, Ht.
  rewrite acumulado_estrato in He. rewrite acumulado_tramos in Ht.
  fold (estratos (concat chunks)) in He.
  split_and!.
  - by rewrite He, suma_valores_contar.
  - intros Hall. rewrite He, suma_valores_contar. f_equal.
    by apply length_estratos.
  - by rewrite Ht, suma_valores_contar, length_claves_tramo.
  - intros k v. rewrite He, contar_lookup. intros Hk.
    apply entrada_Some in Hk. lia.
  - intros k v. rewrite Ht, contar_lookup. intros Hk.
    apply entrada_Some in Hk. lia.
Qed.

Lemma totales_del_resultado_witness :
  ∃ f, combinar_resultados (procesar_chunk 2025 <$> [Ejemplos.escenario]) = Ok f
       ∧ Py.suma_valores (conteo_estrato f) = 4
       ∧ Py.suma_valores (tramos f) = 3.
Proof.
  destruct (combinar_resultados (procesar_chunk 2025 <$> [Ejemplos.escenario]))
    as [f|e] eqn:Hf.
  - exists f. split; [reflexivity|].
    pose proof (totales_del_resultado 2025 [Ejemplos.escenario] f Hf) as (H1 & _ & H3 & _).
    split; [exact H1 | exact H3].
  - vm_compute in Hf. discriminate.
Defined.

(** ** Range of the percentages *)

(** X5: the percentages are reported for exactly the strata that have a
    count, and each lies between 0 and 100. *)
Theorem porcentajes_en_rango (anio : Z) (chunks : list (list Fila)) (f : Final) :
  combinar_resultados (procesar_chunk anio <$> chunks) = Ok f →
  dom (porcentaje_estrato f) = dom (conteo_estrato f)
  ∧ ∀ k q, porcentaje_estrato f !! k = Some q → (0 <= q <= 100)%Q.
Proof.
  intros Hf. apply combinar_Ok_inv in Hf as (He & Hp & _).
  fold (acumulado anio chunks) in He, Hp. rewrite acumulado_estrato in He, Hp.
  fold (estratos (concat chunks)) in He, Hp.
  rewrite suma_valores_contar in Hp.
  split.
  - by rewrite Hp, He, dom_fmap_L.
  - intros k q. rewrite Hp, lookup_fmap, contar_lookup.
    destruct (entrada k (estratos (concat chunks))) as [v|] eqn:Hk; [|done].
    apply entrada_Some in Hk as (_ & Hv). intros [= <-].
    set (N := Z.of_nat (length (estratos (concat chunks)))) in *.
    destruct (round_truediv (v * 100) N 2) as (h & -> & Hh); [lia..|].
    change (Z.to_pos (10 ^ 2)) with 100%positive.
    change (10 ^ 2) with 100 in Hh.
    change (2 ^ 53) with 9007199254740992 in Hh.
    change (2 ^ 52) with 4503599627370496 in Hh.
    unfold Qle. cbn [Qnum Qden]. split.
    + destruct (Z.le_gt_cases 0 h) as [?|Hneg]; [lia|].
      assert (h * N ≤ - N) by nia. lia.
    + destruct (Z.le_gt_cases h 10000) as [?|Hbig]; [lia|].
      assert (10001 * N ≤ h * N) by nia. lia.
Qed.

Lemma porcentajes_en_rango_witness :
  ∃ f, combinar_resultados (procesar_chunk 2025 <$> [Ejemplos.escenario]) = Ok f
       ∧ dom (porcentaje_estrato f) = dom (conteo_estrato f).
Proof.
  destruct (combinar_resultados (procesar_chunk 2025 <$> [Ejemplos.escenario]))
    as [f|e] eqn:Hf.
  - exists f. split; [reflexivity|].
    exact (proj1 (porcentajes_en_rango 2025 [Ejemplos.escenario] f Hf)).
  - vm_compute in Hf. discriminate.
Defined.

(** ** What the top flows hold *)

Section TopFlujos.
Variable anio : Z.
Variable chunks : list (list Fila).
Variable f : Final.
Hypothesis Hf : combinar_resultados (procesar_chunk anio <$> chunks) = Ok f.

Local Abbreviation vt := (viajes_total (acumulado anio chunks)).
Local Abbreviation claves := (claves_viaje (concat chunks)).









End TopFlujos.







(** ** The merged pyramid *)

Section Series.
Implicit Types (s : Serie) (ss : list Serie) (k : string * string).
Implicit Types (o : option (option Z)) (os : list (option (option Z))).

Lemma serie_add_lookup s1 s2 k :
  Py.serie_add s1 s2 !! k
  = match s1 !! k, s2 !! k with
    | Some (Some x), Some (Some y) => Some (Some (x + y))
    | None, None => None
    | _, _ => Some None
    end.
Proof.
  unfold Py.serie_add. rewrite lookup_merge.
  destruct (s1 !! k) as [[x|]|], (s2 !! k) as [[y|]|]; done.
Qed.

Lemma resumen_singleton o : resumen [o] = o.
Proof.
  unfold resumen. destruct o as [[x|]|]; cbn [numeros fmap option_fmap option_map];
    destruct (decide (Forall (λ o, o = None) [_])) as [Hall|Hall];
    try done; try (by inv Hall).
  - do 2 f_equal. lia.
  - destruct Hall. by constructor.
Qed.

Lemma resumen_suma o1 o2 os :
  resumen (match o1, o2 with
           | Some (Some x), Some (Some y) => Some (Some (x + y))
           | None, None => None
           | _, _ => Some None
           end :: os)
  = resumen (o1 :: o2 :: os).
Proof.
  unfold resumen.
  destruct o1 as [[x|]|], o2 as [[y|]|]; cbn [numeros];
    repeat match goal with
    | |- context [decide (Forall ?P ?l)] =>
        destruct (decide (Forall P l)) as [?Hall|?Hall]
    end;
    repeat match goal with
    | H : Forall _ (Some _ :: _) |- _ => by inv H
    | H : Forall _ (None :: _) |- _ => inv H
    end;
    try done.
  - destruct (numeros os); simpl; [do 2 f_equal; lia | done].
  - match goal with H : ¬ Forall _ _ |- _ => destruct H; by repeat constructor end.
  - match goal with H : ¬ Forall _ (None :: ?l) |- _ => destruct H; by constructor end.
Qed.

Lemma foldl_serie_add_lookup ss s k :
  foldl Py.serie_add s ss !! k = resumen (s !! k :: ((λ s', s' !! k) <$> ss)).
Proof.
  revert s. induction ss as [|s' ss IH]; intros s.
  - simpl. by rewrite resumen_singleton.
  - cbn [foldl]. rewrite IH, serie_add_lookup, fmap_cons. apply resumen_suma.
Qed.




End Series.





Section PiramideChunks.
Variable anio : Z.
Implicit Types (chunks : list (list Fila)) (k : string * string).

Local Abbreviation celdas k chunks :=
  ((λ s : Serie, s !! k) <$> (p_piramide <$> (procesar_chunk anio <$> chunks))).

Lemma celda_chunk (c : list Fila) k :
  p_piramide (procesar_chunk anio c) !! k = Some <$> entrada k (claves_piramide anio c).
Proof.
  cbn [procesar_chunk p_piramide]. by rewrite lookup_fmap, contar_lookup.
Qed.

Lemma celdas_ausentes chunks k :
  Forall (λ c, k ∉ claves_piramide anio c) chunks → Forall (λ o, o = None) (celdas k chunks).
Proof.
  induction 1 as [|c chunks Hc _ IH]; [constructor|].
  rewrite !fmap_cons. constructor; [|exact IH].
  rewrite celda_chunk. unfold entrada. by rewrite decide_False.
Qed.

Lemma celdas_numeros chunks k :
  Forall (λ c, k ∈ claves_piramide anio c) chunks →
  numeros (celdas k chunks) = Some (ocurrencias k (claves_piramide anio (concat chunks))).
Proof.
  induction 1 as [|c chunks Hc _ IH]; [done|].
  rewrite !fmap_cons. cbn [numeros concat]. rewrite celda_chunk.
  unfold entrada at 1. rewrite decide_True by done. cbn [fmap option_fmap option_map].
  rewrite IH. unfold claves_piramide. rewrite omap_app, ocurrencias_app. done.
Qed.

Lemma celdas_no_numeros chunks k :
  Exists (λ c, k ∉ claves_piramide anio c) chunks → numeros (celdas k chunks) = None.
Proof.
  induction 1 as [c chunks Hc|c chunks _ IH]; rewrite !fmap_cons; cbn [numeros].
  - rewrite celda_chunk. unfold entrada. by rewrite decide_False.
  - rewrite IH. by destruct (p_piramide (procesar_chunk anio c) !! k) as [[?|]|].
Qed.

Lemma celdas_presentes chunks k :
  Exists (λ c, k ∈ claves_piramide anio c) chunks →
  ¬ Forall (λ o, o = None) (celdas k chunks).
Proof.
  induction 1 as [c chunks Hc|c chunks _ IH]; rewrite !fmap_cons;
    intros Hall; apply Forall_cons in Hall as [Hc1 Hc2].
  - cbn beta in Hc1. rewrite celda_chunk in Hc1. unfold entrada in Hc1.
    by rewrite decide_True in Hc1.
  - by apply IH.
Qed.

Lemma piramide_de_chunks chunks (f : Final) k :
  combinar_resultados (procesar_chunk anio <$> chunks) = Ok f →
  piramide_edades f !! k = resumen (celdas k chunks).
Proof.
  intros Hf. apply combinar_Ok_inv in Hf as (_ & _ & _ & _ & _ & _ & Hs).
  rewrite foldl_acumular_piramide in Hs. cbn [piramide_total acumulador_inicial app] in Hs.
  destruct chunks as [|c chunks]; [done|].
  rewrite !fmap_cons in Hs. cbn [Py.sum_series] in Hs. injection Hs as <-.
  by rewrite foldl_serie_add_lookup, !fmap_cons.
Qed.

End PiramideChunks.

(** X10: the pyramid of the result holds, for a (group, gender) pair, the
    number of rows of the whole dataset when every chunk has a row of the
    pair, nothing when no chunk has one, and NaN when some chunk has a row
    of the pair and some other chunk has none. *)
Theorem piramide_del_resultado (anio : Z) (chunks : list (list Fila)) (f : Final)
    (k : string * string) :
  combinar_resultados (procesar_chunk anio <$> chunks) = Ok f →
  (Forall (λ c, k ∈ claves_piramide anio c) chunks →
   piramide_edades f !! k
   = Some (Some (ocurrencias k (claves_piramide anio (concat chunks)))))
  ∧ (Forall (λ c, k ∉ claves_piramide anio c) chunks → piramide_edades f !! k = None)
  ∧ (Exists (λ c, k ∈ claves_piramide anio c) chunks →
     Exists (λ c, k ∉ claves_piramide anio c) chunks →
     piramide_edades f !! k = Some None).
Proof.
  intros Hf. rewrite (piramide_de_chunks anio chunks f k Hf). unfold resumen.
  split_and!.
  - intros Hall. rewrite (celdas_numeros anio chunks k Hall).
    rewrite decide_False; [done|]. apply celdas_presentes.
    destruct chunks as [|c chunks]; [by vm_compute in Hf|].
    inv Hall. by left.
  - intros Hnone. by rewrite decide_True by by apply celdas_ausentes.
  - intros Hin Hout. rewrite (celdas_no_numeros anio chunks k Hout).
    rewrite decide_False; [done|]. by apply celdas_presentes.
Qed.

Lemma piramide_del_resultado_witness :
  ∃ f, combinar_resultados (procesar_chunk 2025 <$> Ejemplos.chunks_piramide) = Ok f
       ∧ piramide_edades f !! ("0-4", "MACHO")%string = Some None.
Proof.
  destruct (combinar_resultados (procesar_chunk 2025 <$> Ejemplos.chunks_piramide))
    as [f|e] eqn:Hf.
  - exists f. split; [reflexivity|].
    apply (piramide_del_resultado 2025 Ejemplos.chunks_piramide f _ Hf).
    + left. vm_compute. left.
    + right. left. vm_compute. intros Hin. inv Hin. inv H1.
  - vm_compute in Hf. discriminate.
Defined.

(** ** The order of the groups *)

Lemma ascii_compare_refl (a : ascii) : Ascii.compare a a = Eq.
Proof. unfold Ascii.compare. apply N.compare_refl. Qed.

Lemma ascii_compare_lt_trans (a b c : ascii) :
  Ascii.compare a b = Lt → Ascii.compare b c = Lt → Ascii.compare a c = Lt.
Proof.
  unfold Ascii.compare. rewrite !N.compare_lt_iff. apply N.lt_trans.
Qed.

Lemma string_compare_lt_trans (s1 s2 s3 : string) :
  String.compare s1 s2 = Lt → String.compare s2 s3 = Lt → String.compare s1 s3 = Lt.
Proof.
  revert s2 s3. induction s1 as [|a s1 IH]; intros [|b s2] [|c s3]; simpl; try done.
  destruct (Ascii.compare a b) eqn:Hab; try done;
    destruct (Ascii.compare b c) eqn:Hbc; try done.
  - apply Ascii.compare_eq_iff in Hab, Hbc. subst.
    rewrite ascii_compare_refl. apply IH.
  - apply Ascii.compare_eq_iff in Hab. subst. by rewrite Hbc.
  - apply Ascii.compare_eq_iff in Hbc. subst. by rewrite Hab.
  - by rewrite (ascii_compare_lt_trans a b c).
Qed.

Lemma string_compare_gt_lt (s1 s2 : string) :
  String.compare s1 s2 = Gt → String.compare s2 s1 = Lt.
Proof.
  intros Hgt. rewrite (String.compare_antisym s2 s1), Hgt. done.
Qed.

Lemma cmp_par_refl a : Py.cmp_par a a = Eq.
Proof. unfold Py.cmp_par. by rewrite !string_compare_refl. Qed.

Lemma cmp_par_lt_trans a b c :
  Py.cmp_par a b = Lt → Py.cmp_par b c = Lt → Py.cmp_par a c = Lt.
Proof.
  destruct a as [a1 a2], b as [b1 b2], c as [c1 c2]. unfold Py.cmp_par. simpl.
  destruct (String.compare a1 b1) eqn:Hab; try done;
    destruct (String.compare b1 c1) eqn:Hbc; try done.
  - apply String.compare_eq_iff in Hab, Hbc. subst.
    rewrite string_compare_refl. apply string_compare_lt_trans.
  - apply String.compare_eq_iff in Hab. subst. by rewrite Hbc.
  - apply String.compare_eq_iff in Hbc. subst. by rewrite Hab.
  - by rewrite (string_compare_lt_trans a1 b1 c1).
Qed.

Lemma cmp_par_gt_lt a b : Py.cmp_par a b = Gt → Py.cmp_par b a = Lt.
Proof.
  destruct a as [a1 a2], b as [b1 b2]. unfold Py.cmp_par. simpl.
  destruct (String.compare a1 b1) eqn:Hab; try done.
  - apply String.compare_eq_iff in Hab. subst. rewrite string_compare_refl.
    apply string_compare_gt_lt.
  - intros _. by rewrite (string_compare_gt_lt _ _ Hab).
Qed.

Lemma cmp_entero_refl a : Py.cmp_entero a a = Eq.
Proof. unfold Py.cmp_entero. by rewrite Z.compare_refl, string_compare_refl. Qed.

Lemma cmp_entero_lt_trans a b c :
  Py.cmp_entero a b = Lt → Py.cmp_entero b c = Lt → Py.cmp_entero a c = Lt.
Proof.
  unfold Py.cmp_entero.
  set (va := default 0 (Py.valor_entero a)).
  set (vb := default 0 (Py.valor_entero b)).
  set (vc := default 0 (Py.valor_entero c)).
  destruct (Z.compare_spec va vb) as [Hab|Hab|Hab]; try done;
    destruct (Z.compare_spec vb vc) as [Hbc|Hbc|Hbc]; try done; intros H1 H2.
  - rewrite (proj2 (Z.compare_eq_iff va vc)) by lia.
    by apply (string_compare_lt_trans a b c).
  - by rewrite (proj2 (Z.compare_lt_iff va vc)) by lia.
  - by rewrite (proj2 (Z.compare_lt_iff va vc)) by lia.
  - by rewrite (proj2 (Z.compare_lt_iff va vc)) by lia.
Qed.

Lemma cmp_entero_gt_lt a b : Py.cmp_entero a b = Gt → Py.cmp_entero b a = Lt.
Proof.
  unfold Py.cmp_entero.
  set (va := default 0 (Py.valor_entero a)).
  set (vb := default 0 (Py.valor_entero b)).
  destruct (Z.compare_spec va vb) as [Hab|Hab|Hab]; try done.
  - rewrite (proj2 (Z.compare_eq_iff vb va)) by lia.
    apply string_compare_gt_lt.
  - intros _. by rewrite (proj2 (Z.compare_lt_iff vb va)) by lia.
Qed.

Lemma cmp_columna_refl (entera : bool) a : Py.cmp_columna entera a a = Eq.
Proof. destruct entera; [apply cmp_entero_refl | apply string_compare_refl]. Qed.

Lemma cmp_columna_lt_trans (entera : bool) a b c :
  Py.cmp_columna entera a b = Lt → Py.cmp_columna entera b c = Lt →
  Py.cmp_columna entera a c = Lt.
Proof.
  destruct entera; [apply cmp_entero_lt_trans | apply string_compare_lt_trans].
Qed.

Lemma cmp_columna_gt_lt (entera : bool) a b :
  Py.cmp_columna entera a b = Gt → Py.cmp_columna entera b a = Lt.
Proof.
  destruct entera; [apply cmp_entero_gt_lt | apply string_compare_gt_lt].
Qed.

Lemma cmp_viaje_refl (o d : bool) a : Py.cmp_viaje o d a a = Eq.
Proof. unfold Py.cmp_viaje. by rewrite !cmp_columna_refl. Qed.

Lemma cmp_viaje_lt_trans (o d : bool) a b c :
  Py.cmp_viaje o d a b = Lt → Py.cmp_viaje o d b c = Lt → Py.cmp_viaje o d a c = Lt.
Proof.
  destruct a as [a1 a2], b as [b1 b2], c as [c1 c2]. unfold Py.cmp_viaje. simpl.
  destruct (Py.cmp_columna o a1 b1) eqn:Hab; try done;
    destruct (Py.cmp_columna o b1 c1) eqn:Hbc; try done.
  - apply cmp_columna_eq in Hab, Hbc. subst.
    rewrite cmp_columna_refl. apply cmp_columna_lt_trans.
  - apply cmp_columna_eq in Hab. subst. by rewrite Hbc.
  - apply cmp_columna_eq in Hbc. subst. by rewrite Hab.
  - by rewrite (cmp_columna_lt_trans o a1 b1 c1).
Qed.

Lemma cmp_viaje_gt_lt (o d : bool) a b :
  Py.cmp_viaje o d a b = Gt → Py.cmp_viaje o d b a = Lt.
Proof.
  destruct a as [a1 a2], b as [b1 b2]. unfold Py.cmp_viaje. simpl.
  destruct (Py.cmp_columna o a1 b1) eqn:Hab; try done.
  - apply cmp_columna_eq in Hab. subst. rewrite cmp_columna_refl.
    apply cmp_columna_gt_lt.
  - intros _. by rewrite (cmp_columna_gt_lt _ _ _ Hab).
Qed.

(** On the codes of an [int64] column the order is that of the
    integers. *)
Lemma valor_entero_py_str (n : Z) : Py.valor_entero (py_str n) = Some n.
Proof.
  unfold Py.valor_entero, py_str. rewrite NilZero.isi.
  - simpl. f_equal. apply DecimalZ.of_to.
  - destruct n; simpl; try discriminate.
    intros [= Hp]. by apply DecimalPos.Unsigned.to_uint_nonnil in Hp.
  - destruct n; simpl; try discriminate.
    intros [= Hp]. by apply DecimalPos.Unsigned.to_uint_nonnil in Hp.
Qed.

Lemma cmp_entero_numerico (n m : Z) :
  n < m → Py.cmp_entero (py_str n) (py_str m) = Lt.
Proof.
  intros Hlt. unfold Py.cmp_entero. rewrite !valor_entero_py_str. simpl.
  by rewrite (proj2 (Z.compare_lt_iff n m) Hlt).
Qed.

Section GruposOrdenados.
Context {K V : Type} `{EqDecision K} (cmp : K → K → comparison).
Hypothesis cmp_eq : ∀ a b, cmp a b = Eq → a = b.
Hypothesis cmp_refl : ∀ a, cmp a a = Eq.
Hypothesis cmp_trans : ∀ a b c, cmp a b = Lt → cmp b c = Lt → cmp a c = Lt.
Hypothesis cmp_gt_lt : ∀ a b, cmp a b = Gt → cmp b a = Lt.
Implicit Types (gs : list (K * list V)) (k : K) (rows : list (K * V)).

Lemma agregar_fila_claves k v gs g :
  g ∈ Py.agregar_fila cmp k v gs → g.1 = k ∨ g.1 ∈ gs.*1.
Proof.
  induction gs as [|[k' vs] gs IH]; simpl.
  - intros ->%list_elem_of_singleton. by left.
  - destruct (cmp k k') eqn:Hc.
    + intros [->|Hg]%elem_of_cons; right.
      * by left.
      * right. by apply list_elem_of_fmap_2.
    + intros [->|Hg]%elem_of_cons; [by left|]. right.
      apply (list_elem_of_fmap_2 fst) in Hg. exact Hg.
    + intros [->|Hg]%elem_of_cons; [right; by left|].
      destruct (IH Hg) as [?|?]; [by left | right; by right].
Qed.

Lemma agregar_fila_sorted k v gs :
  StronglySorted (menor cmp) gs → StronglySorted (menor cmp) (Py.agregar_fila cmp k v gs).
Proof.
  induction 1 as [|[k' vs] gs Hgs IH Hk']; simpl.
  - repeat constructor.
  - destruct (cmp k k') eqn:Hc.
    + constructor; [done|]. exact Hk'.
    + constructor; [by constructor|]. constructor; [exact Hc|].
      eapply Forall_impl; [exact Hk'|]. intros g Hg. unfold menor in *. simpl in *.
      by eapply cmp_trans.
    + constructor; [done|]. apply Forall_forall. intros g Hg.
      destruct (agregar_fila_claves _ _ _ _ Hg) as [Hgk|Hgk].
      * unfold menor. simpl. rewrite Hgk. by apply cmp_gt_lt.
      * apply list_elem_of_fmap in Hgk as (g' & Hg' & Hin).
        rewrite Forall_forall in Hk'. specialize (Hk' g' Hin).
        unfold menor in *. by rewrite Hg'.
Qed.

Lemma groupby_sorted rows : StronglySorted (menor cmp) (Py.groupby cmp rows).
Proof.
  unfold Py.groupby.
  enough (∀ gs, StronglySorted (menor cmp) gs →
            StronglySorted (menor cmp)
              (foldl (λ gs kv, Py.agregar_fila cmp kv.1 kv.2 gs) gs rows)) as Hgen
    by (apply Hgen; constructor).
  induction rows as [|[k v] rows IH]; intros gs Hgs; [done|].
  cbn [foldl]. by apply IH, agregar_fila_sorted.
Qed.

Lemma grupo_de_menor k gs :
  Forall (λ g, cmp k g.1 = Lt) gs → grupo_de k gs = None.
Proof.
  induction 1 as [|[k' vs] gs Hk' _ IH]; [done|]. simpl in *.
  rewrite decide_False; [done|]. intros ->. by rewrite cmp_refl in Hk'.
Qed.

Lemma grupo_de_agregar k k' v gs :
  StronglySorted (menor cmp) gs →
  grupo_de k (Py.agregar_fila cmp k' v gs)
  = if decide (k' = k) then Some (default [] (grupo_de k gs) ++ [v]) else grupo_de k gs.
Proof.
  induction 1 as [|[k'' vs] gs Hgs IH Hk'']; simpl.
  - by destruct (decide (k' = k)).
  - destruct (cmp k' k'') eqn:Hc; simpl.
    + apply cmp_eq in Hc as ->.
      destruct (decide (k'' = k)) as [->|Hne]; done.
    + destruct (decide (k' = k)) as [->|Hne]; [|done].
      assert (k'' ≠ k) as Hne by (intros ->; by rewrite cmp_refl in Hc).
      rewrite (decide_False (P := k'' = k)) by done.
      rewrite grupo_de_menor; [done|].
      eapply Forall_impl; [exact Hk''|]. intros g Hg. unfold menor in Hg. simpl in Hg.
      by eapply cmp_trans.
    + destruct (decide (k'' = k)) as [->|Hne]; [|exact IH].
      assert (k' ≠ k) as Hne by (intros ->; by rewrite cmp_refl in Hc).
      by rewrite (decide_False (P := k' = k)).
Qed.

Lemma list_filter_nil_aux {A} (P : A → Prop) `{∀ x, Decision (P x)} (l : list A) :
  (∀ x, x ∈ l → ¬ P x) → filter P l = [].
Proof.
  induction l as [|x l IH]; [done|]. intros Hall.
  rewrite filter_cons, decide_False by (apply Hall; by left).
  apply IH. intros y Hy. apply Hall. by right.
Qed.

(** A grouped table holds, under each key, the rows of that key in their
    original order. *)
Lemma grupo_de_groupby rows k :
  grupo_de k (Py.groupby cmp rows)
  = if decide (k ∈ rows.*1) then Some (filter (λ r, r.1 = k) rows).*2 else None.
Proof.
  unfold Py.groupby.
  enough (∀ gs, StronglySorted (menor cmp) gs →
            grupo_de k (foldl (λ gs kv, Py.agregar_fila cmp kv.1 kv.2 gs) gs rows)
            = if decide (k ∈ rows.*1)
              then Some (default [] (grupo_de k gs) ++ (filter (λ r, r.1 = k) rows).*2)
              else grupo_de k gs) as Hgen.
  { rewrite Hgen by constructor. by case_decide. }
  induction rows as [|[k' v] rows IH]; intros gs Hgs.
  - done.
  - cbn [foldl]. rewrite IH by (by apply agregar_fila_sorted).
    rewrite grupo_de_agregar by done. rewrite fmap_cons, filter_cons. cbn [fst snd].
    destruct (decide (k' = k)) as [->|Hne].
    + destruct (decide (k ∈ k :: rows.*1)) as [_|Hout]; [|destruct Hout; by left].
      cbn [default]. rewrite fmap_cons. cbn [snd].
      destruct (decide (k ∈ rows.*1)) as [Hin|Hin];
        [unfold id; by rewrite <- app_assoc|].
      assert (filter (λ r : K * V, r.1 = k) rows = []) as ->; [|done].
      apply list_filter_nil_aux. intros r Hr Hk. destruct Hin.
      apply list_elem_of_fmap. by exists r.
    + destruct (decide (k ∈ rows.*1)) as [Hin|Hin];
        destruct (decide (k ∈ k' :: rows.*1)) as [Hin'|Hin']; try done.
      * destruct Hin'. by right.
      * apply elem_of_cons in Hin' as [->|?]; done.
Qed.

Lemma sorted_claves_NoDup gs : StronglySorted (menor cmp) gs → NoDup gs.*1.
Proof.
  induction 1 as [|g gs Hgs IH Hg]; [constructor|].
  rewrite fmap_cons. constructor; [|exact IH].
  intros Hin. apply list_elem_of_fmap in Hin as (g' & Heq & Hin).
  rewrite Forall_forall in Hg. specialize (Hg g' Hin). unfold menor in Hg.
  by rewrite Heq, cmp_refl in Hg.
Qed.

Lemma grupo_de_elem_of gs k vs :
  NoDup gs.*1 → (k, vs) ∈ gs ↔ grupo_de k gs = Some vs.
Proof.
  induction gs as [|[k' vs'] gs IH]; simpl; intros Hnd.
  - rewrite elem_of_nil. split; [tauto | discriminate].
  - apply NoDup_cons in Hnd as [Hk' Hnd]. rewrite elem_of_cons.
    destruct (decide (k' = k)) as [->|Hne].
    + split; [intros [[= ->]|Hin]; [done|] | intros [= ->]; by left].
      destruct Hk'. apply list_elem_of_fmap. by exists (k, vs).
    + rewrite <- IH by done. split; [intros [[= -> _]|Hin]; done | by right].
Qed.

End GruposOrdenados.

(** ** The age statistics of a chunk *)

Section EstadisticasChunk.
Variable anio : Z.
Implicit Types (c : list Fila) (s : EdadStat) (k : string * string).

Local Abbreviation filas_clave c :=
  ((λ f, (especie f, genero f, edad_de anio f)) <$> c).

Lemma edades_de_grupo c k :
  omap id (filter (λ r : string * string * option Z, r.1 = k) (filas_clave c)).*2
  = edades_validas anio (filas_de_grupo k c).
Proof.
  unfold edades_validas, filas_de_grupo.
  induction c as [|f c IH]; [done|].
  rewrite fmap_cons, !filter_cons. cbn [fst].
  destruct (decide ((especie f, genero f) = k)) as [Hk|Hk].
  - rewrite fmap_cons. cbn [snd omap list_omap id]. rewrite <- IH.
    by destruct (edad_de anio f).
  - exact IH.
Qed.

Lemma claves_filas_clave c : (filas_clave c).*1 = (λ f, (especie f, genero f)) <$> c.
Proof. by rewrite <- list_fmap_compose. Qed.

Lemma stats_de_grupo_Some (g : string * string * list (option Z)) s :
  stats_de_grupo g = Some s →
  clave_stat s = g.1 ∧ omap id g.2 ≠ []
  ∧ es_mean s = Py.mean (omap id g.2) ∧ es_median s = Py.median (omap id g.2).
Proof.
  unfold stats_de_grupo. destruct (omap id g.2) as [|x xs] eqn:Hxs; [done|].
  intros [= <-]. unfold clave_stat. cbn. by destruct g as [[??]?].
Qed.

Lemma elem_of_p_edades c s :
  s ∈ p_edades (procesar_chunk anio c) ↔
  ∃ vs, grupo_de (clave_stat s) (Py.groupby Py.cmp_par (filas_clave c)) = Some vs
        ∧ stats_de_grupo (clave_stat s, vs) = Some s.
Proof.
  cbn [procesar_chunk p_edades]. rewrite list_elem_of_omap.
  pose proof (sorted_claves_NoDup Py.cmp_par cmp_par_refl _
                (groupby_sorted Py.cmp_par cmp_par_lt_trans cmp_par_gt_lt (filas_clave c)))
    as Hnd.
  split.
  - intros ([k vs] & Hin & Hs). pose proof (stats_de_grupo_Some _ _ Hs) as (Hk & _).
    cbn in Hk. subst k. exists vs. split; [|done].
    by apply (grupo_de_elem_of _ _ _ Hnd).
  - intros (vs & Hg & Hs). exists (clave_stat s, vs). split; [|done].
    by apply (grupo_de_elem_of _ _ _ Hnd).
Qed.

Lemma grupo_de_filas_clave c k :
  grupo_de k (Py.groupby Py.cmp_par (filas_clave c))
  = if decide (k ∈ (filas_clave c).*1)
    then Some (filter (λ r : string * string * option Z, r.1 = k) (filas_clave c)).*2
    else None.
Proof.
  apply grupo_de_groupby;
    [apply cmp_par_eq | apply cmp_par_refl | apply cmp_par_lt_trans | apply cmp_par_gt_lt].
Qed.

Lemma p_edades_correctas c s :
  s ∈ p_edades (procesar_chunk anio c) →
  edades_validas anio (filas_de_grupo (clave_stat s) c) ≠ []
  ∧ es_mean s = Py.mean (edades_validas anio (filas_de_grupo (clave_stat s) c))
  ∧ es_median s = Py.median (edades_validas anio (filas_de_grupo (clave_stat s) c)).
Proof.
  intros (vs & Hg & Hs)%elem_of_p_edades.
  rewrite grupo_de_filas_clave in Hg. case_decide; [|done]. injection Hg as <-.
  apply stats_de_grupo_Some in Hs as (_ & Hne & Hm & Hmed). cbn [snd] in *.
  by rewrite edades_de_grupo in Hne, Hm, Hmed.
Qed.

Lemma p_edades_completas c k :
  edades_validas anio (filas_de_grupo k c) ≠ [] →
  ∃ s, s ∈ p_edades (procesar_chunk anio c) ∧ clave_stat s = k.
Proof.
  intros Hne.
  assert (k ∈ (filas_clave c).*1) as Hin.
  { rewrite claves_filas_clave. unfold edades_validas, filas_de_grupo in Hne.
    destruct (filter (λ f, (especie f, genero f) = k) c) as [|f fs] eqn:Hf; [done|].
    assert (f ∈ filter (λ f, (especie f, genero f) = k) c) as Hfin
      by (rewrite Hf; by left).
    apply list_elem_of_filter in Hfin as [<- Hfin].
    by apply (list_elem_of_fmap_2 (λ f, (especie f, genero f))). }
  set (vs := (filter (λ r : string * string * option Z, r.1 = k) (filas_clave c)).*2).
  assert (omap id vs = edades_validas anio (filas_de_grupo k c)) as Hvs
    by apply edades_de_grupo.
  destruct (stats_de_grupo (k, vs)) as [s|] eqn:Hs.
  - pose proof (stats_de_grupo_Some _ _ Hs) as (Hk & _). cbn in Hk.
    exists s. split; [|done]. apply elem_of_p_edades. exists vs. rewrite Hk.
    split; [|done]. rewrite grupo_de_filas_clave. by rewrite decide_True.
  - unfold stats_de_grupo in Hs. cbn [snd] in Hs. rewrite Hvs in Hs.
    by destruct (edades_validas anio (filas_de_grupo k c)).
Qed.

Lemma p_edades_sorted c :
  StronglySorted (λ s1 s2, Py.cmp_par (clave_stat s1) (clave_stat s2) = Lt)
    (p_edades (procesar_chunk anio c)).
Proof.
  cbn [procesar_chunk p_edades].
  pose proof (groupby_sorted Py.cmp_par cmp_par_lt_trans cmp_par_gt_lt (filas_clave c))
    as Hs.
  induction Hs as [|g gs Hgs IH Hg]; [constructor|].
  cbn [omap list_omap]. destruct (stats_de_grupo g) as [s|] eqn:Hsg; [|exact IH].
  constructor; [exact IH|]. apply Forall_forall. intros s' Hs'.
  apply list_elem_of_omap in Hs' as (g' & Hin & Hs').
  apply stats_de_grupo_Some in Hsg as (-> & _). apply stats_de_grupo_Some in Hs' as (-> & _).
  rewrite Forall_forall in Hg. exact (Hg g' Hin).
Qed.

End EstadisticasChunk.



(** ** The flows of a chunk *)

Lemma total_viajes_None {K} `{EqDecision K} (k : K) (vs : list (K * Z)) :
  k ∉ vs.*1 → total_viajes k vs = None.
Proof.
  induction vs as [|v vs IH]; [done|]. rewrite fmap_cons, not_elem_of_cons.
  intros [Hne Hout]. cbn [total_viajes]. rewrite decide_False by done. by apply IH.
Qed.

Lemma total_viajes_odict_get {K} `{EqDecision K} (k : K) (vs : list (K * Z)) :
  NoDup vs.*1 → total_viajes k vs = Py.odict_get k vs.
Proof.
  induction vs as [|[k' v] vs IH]; [done|]. rewrite fmap_cons. cbn [fst].
  intros [Hout Hnd]%NoDup_cons. cbn [total_viajes Py.odict_get fst snd].
  destruct (decide (k' = k)) as [->|Hne].
  - rewrite decide_True by done. by rewrite total_viajes_None.
  - rewrite decide_False by done. by apply IH.
Qed.

Lemma p_viajes_sorted (anio : Z) (c : list Fila) :
  StronglySorted (menor (orden_viajes c)) (p_viajes (procesar_chunk anio c)).
Proof.
  cbn [procesar_chunk p_viajes]. fold (orden_viajes c).
  pose proof (groupby_sorted (orden_viajes c)
                (cmp_viaje_lt_trans _ _) (cmp_viaje_gt_lt _ _)
                ((λ f, (cp_origen f, cp_destino f, ())) <$> c)) as Hs.
  induction Hs as [|[[o d] vs] gs Hgs IH Hg]; [constructor|].
  rewrite fmap_cons. constructor; [exact IH|].
  apply Forall_fmap. eapply Forall_impl; [exact Hg|].
  by intros [[??]?].
Qed.

Lemma menor_NoDup {K V} (cmp : K → K → comparison) (l : list (K * V)) :
  (∀ a, cmp a a = Eq) → StronglySorted (menor cmp) l → NoDup l.*1.
Proof.
  intros Hrefl. induction 1 as [|g gs Hgs IH Hg]; [constructor|].
  rewrite fmap_cons. constructor; [|exact IH].
  intros Hin. apply list_elem_of_fmap in Hin as (g' & Heq & Hin).
  rewrite Forall_forall in Hg. specialize (Hg g' Hin). unfold menor in Hg.
  by rewrite Heq, Hrefl in Hg.
Qed.

Lemma p_viajes_NoDup (anio : Z) (c : list Fila) :
  NoDup (p_viajes (procesar_chunk anio c)).*1.
Proof.
  apply (menor_NoDup (orden_viajes c) _ (cmp_viaje_refl _ _)), p_viajes_sorted.
Qed.

(** The order of the flows of a chunk whose two columns of codes are
    integers is the order of the pairs of integers. *)
Lemma orden_viajes_numerico (c : list Fila) (o1 d1 o2 d2 : Z) :
  Py.columna_entera (cp_origen <$> c) = true →
  Py.columna_entera (cp_destino <$> c) = true →
  orden_viajes c (py_str o1, py_str d1) (py_str o2, py_str d2) = Lt
  ↔ o1 < o2 ∨ (o1 = o2 ∧ d1 < d2).
Proof.
  intros Ho Hd. unfold orden_viajes, Py.cmp_viaje. rewrite Ho, Hd.
  cbn [fst snd]. unfold Py.cmp_columna, Py.cmp_entero.
  rewrite !valor_entero_py_str. cbn [from_option id].
  destruct (Z.compare_spec o1 o2) as [->|Ho12|Ho12].
  - rewrite string_compare_refl.
    destruct (Z.compare_spec d1 d2) as [->|Hd12|Hd12].
    + rewrite string_compare_refl. split; [done | lia].
    + split; [lia | done].
    + split; [done | lia].
  - split; [lia | done].
  - split; [done | lia].
Qed.

(** X12: the flow list of a chunk holds each flow of the chunk once,
    with its number of rows; when the codes of the chunk are integers it
    is in strictly increasing order of (origin, destination), the codes
    being compared as integers. *)
Theorem viajes_de_chunk (anio : Z) (c : list Fila) :
  NoDup (p_viajes (procesar_chunk anio c)).*1
  ∧ (∀ k v, (k, v) ∈ p_viajes (procesar_chunk anio c)
            ↔ k ∈ claves_viaje c ∧ v = ocurrencias k (claves_viaje c))
  ∧ (codigos_enteros c →
     StronglySorted (menor (orden_viajes c)) (p_viajes (procesar_chunk anio c))
     ∧ ∀ o1 d1 o2 d2 : Z,
         orden_viajes c (py_str o1, py_str d1) (py_str o2, py_str d2) = Lt
         ↔ o1 < o2 ∨ (o1 = o2 ∧ d1 < d2)).
Proof.
  split_and!.
  - apply p_viajes_NoDup.
  - intros k v.
    rewrite <- (odict_get_Some _ _ _ (p_viajes_NoDup anio c)).
    rewrite <- total_viajes_odict_get by apply p_viajes_NoDup.
    rewrite total_viajes_procesar. unfold entrada. case_decide as Hk.
    + split; [by intros [= <-] | by intros [_ ->]].
    + split; [done | by intros [? _]].
  - intros Hint. split; [apply p_viajes_sorted|].
    intros o1 d1 o2 d2. apply orden_viajes_numerico.
    + unfold Py.columna_entera. apply forallb_forall. intros s Hs.
      apply in_map_iff in Hs as (r & <- & Hr).
      unfold codigos_enteros in Hint. rewrite Forall_forall in Hint.
      apply (Hint r). by apply list_elem_of_In.
    + unfold Py.columna_entera. apply forallb_forall. intros s Hs.
      apply in_map_iff in Hs as (r & <- & Hr).
      unfold codigos_enteros in Hint. rewrite Forall_forall in Hint.
      apply (Hint r). by apply list_elem_of_In.
Qed.

(** The codes of the scenario are integers, and its flows come in the
    order of the integers. *)
Lemma viajes_de_chunk_witness :
  StronglySorted (menor (orden_viajes Ejemplos.escenario))
    (p_viajes (procesar_chunk 2025 Ejemplos.escenario)).
Proof.
  refine (proj1 (proj2 (proj2 (viajes_de_chunk 2025 Ejemplos.escenario)) _)).
  repeat constructor.
Defined.

(** ** A dataset processed as a single chunk *)

Lemma odict_add_nuevo {K} `{EqDecision K} (k : K) (v : Z) (d : list (K * Z)) :
  k ∉ d.*1 → Py.odict_add k v d = d ++ [(k, v)].
Proof.
  induction d as [|[k' v'] d IH]; [done|]. rewrite fmap_cons, not_elem_of_cons.
  cbn [fst]. intros [Hne Hout]. cbn [Py.odict_add].
  rewrite decide_False by done. by rewrite IH.
Qed.

Lemma foldl_odict_add_nuevos {K} `{EqDecision K} (vs d : list (K * Z)) :
  NoDup (d.*1 ++ vs.*1) →
  foldl (λ d v, Py.odict_add v.1 v.2 d) d vs = d ++ vs.
Proof.
  revert d. induction vs as [|[k v] vs IH]; intros d Hnd.
  - by rewrite app_nil_r.
  - cbn [foldl fst snd]. rewrite fmap_cons in Hnd. cbn [fst] in Hnd.
    rewrite odict_add_nuevo.
    + rewrite IH; [by rewrite <- app_assoc|].
      rewrite fmap_app, <- app_assoc. exact Hnd.
    + apply NoDup_app in Hnd as (_ & Hdis & _). intros Hin.
      apply (Hdis k Hin). by left.
Qed.

(** X13: for a dataset with at least one row, processed as a single
    chunk, the run returns the aggregates of that chunk unchanged: same
    stratum and bracket counts, same age statistics, same pyramid (hence
    without NaN), and the flows of the chunk sorted by descending count
    and cut at 10000. *)
Theorem un_solo_chunk (anio : Z) (c : list Fila) :
  c ≠ [] →
  ∃ f, ejecutar anio [c] = Ok f
       ∧ conteo_estrato f = p_estrato (procesar_chunk anio c)
       ∧ tramos f = p_tramos (procesar_chunk anio c)
       ∧ edad_estadisticas f = p_edades (procesar_chunk anio c)
       ∧ piramide_edades f = p_piramide (procesar_chunk anio c)
       ∧ (∀ k v, piramide_edades f !! k = Some v →
            v = Some (ocurrencias k (claves_piramide anio c)))
       ∧ top_viajes f
         = take (Z.to_nat 10000) (Py.sorted_desc (p_viajes (procesar_chunk anio c))).
Proof.
  intros Hc.
  destruct (ejecutar_Ok anio [c]) as (f & Hr & Hf); [done | by repeat constructor |].
  exists f. split; [exact Hr|].
  apply combinar_Ok_inv in Hf as (He & _ & Hed & Ht & _ & Hv & Hs).
  cbn [fmap list_fmap foldl] in *.
  cbn [acumular acumulador_inicial total_estrato tramos_total edad_registros
       viajes_total piramide_total app Py.sum_series foldl] in *.
  rewrite sumar_dict_empty in He. rewrite sumar_dict_empty in Ht. injection Hs as Hs.
  split_and!; try done.
  - intros k v. rewrite <- Hs, lookup_fmap, contar_lookup.
    fold (claves_piramide anio c). unfold entrada.
    case_decide; [by intros [= <-] | done].
  - rewrite Hv. unfold sumar_viajes. rewrite foldl_odict_add_nuevos; [done|].
    apply p_viajes_NoDup.
Qed.

Lemma un_solo_chunk_witness :
  ∃ f, ejecutar 2025 [Ejemplos.escenario] = Ok f
       ∧ conteo_estrato f = p_estrato (procesar_chunk 2025 Ejemplos.escenario)
       ∧ top_viajes f
         = take (Z.to_nat 10000)
             (Py.sorted_desc (p_viajes (procesar_chunk 2025 Ejemplos.escenario))).
Proof.
  destruct (un_solo_chunk 2025 Ejemplos.escenario) as (f & Hf & He & _ & _ & _ & _ & Hv).
  - discriminate.
  - exists f. split; [exact Hf|]. split; [exact He | exact Hv].
Defined.

(** ** Rows without a birth date *)

Lemma StronglySorted_NoDup {A} (R : relation A) (l : list A) :
  (∀ x, ¬ R x x) → StronglySorted R l → NoDup l.
Proof.
  intros Hirr. induction 1 as [|x l Hl IH Hx]; [constructor|].
  constructor; [|exact IH]. intros Hin.
  rewrite Forall_forall in Hx. exact (Hirr x (Hx x Hin)).
Qed.

Section FilaSinEdad.
Variable anio : Z.
Implicit Types (c : list Fila) (s : EdadStat) (k : string * string).

Lemma elem_of_p_edades_iff c s :
  s ∈ p_edades (procesar_chunk anio c) ↔
  edades_validas anio (filas_de_grupo (clave_stat s) c) ≠ []
  ∧ es_mean s = Py.mean (edades_validas anio (filas_de_grupo (clave_stat s) c))
  ∧ es_median s = Py.median (edades_validas anio (filas_de_grupo (clave_stat s) c)).
Proof.
  split; [apply p_edades_correctas|]. intros (Hne & Hm & Hmed).
  destruct (p_edades_completas anio c _ Hne) as (s' & Hs' & Hk).
  destruct (p_edades_correctas anio c s' Hs') as (_ & Hm' & Hmed').
  rewrite Hk in Hm', Hmed'.
  assert (s' = s) as <-; [|done].
  destruct s as [e g m md], s' as [e' g' m' md']. unfold clave_stat in *. cbn in *.
  injection Hk as -> ->. congruence.
Qed.

Lemma p_edades_ext c c' :
  (∀ k, edades_validas anio (filas_de_grupo k c)
        = edades_validas anio (filas_de_grupo k c')) →
  p_edades (procesar_chunk anio c) = p_edades (procesar_chunk anio c').
Proof.
  intros Hext.
  apply (StronglySorted_unique_strong
           (λ s1 s2, Py.cmp_par (clave_stat s1) (clave_stat s2) = Lt)).
  - intros s1 s2 _ _ H12 H21.
    pose proof (cmp_par_lt_trans _ _ _ H12 H21) as Hcontra.
    by rewrite cmp_par_refl in Hcontra.
  - apply p_edades_sorted.
  - apply p_edades_sorted.
  - assert (∀ s, ¬ Py.cmp_par (clave_stat s) (clave_stat s) = Lt) as Hirr
      by (intros s; by rewrite cmp_par_refl).
    apply NoDup_Permutation.
    + exact (StronglySorted_NoDup _ _ Hirr (p_edades_sorted anio c)).
    + exact (StronglySorted_NoDup _ _ Hirr (p_edades_sorted anio c')).
    + intros s. rewrite !elem_of_p_edades_iff. by rewrite Hext.
Qed.

End FilaSinEdad.

(** X14: a row without a birth date, wherever it stands in the chunk,
    leaves the age statistics, the bracket counts, the dependency counts
    and the pyramid of the chunk unchanged; it adds one to the count of
    its stratum only. *)
Theorem fila_sin_edad (anio : Z) (c1 c2 : list Fila) (r : Fila) :
  anio_nacimiento r = None →
  p_edades (procesar_chunk anio (c1 ++ r :: c2)) = p_edades (procesar_chunk anio (c1 ++ c2))
  ∧ p_tramos (procesar_chunk anio (c1 ++ r :: c2)) = p_tramos (procesar_chunk anio (c1 ++ c2))
  ∧ p_dependencia (procesar_chunk anio (c1 ++ r :: c2))
    = p_dependencia (procesar_chunk anio (c1 ++ c2))
  ∧ p_piramide (procesar_chunk anio (c1 ++ r :: c2))
    = p_piramide (procesar_chunk anio (c1 ++ c2))
  ∧ ∀ k, cuenta (p_estrato (procesar_chunk anio (c1 ++ r :: c2))) k
         = cuenta (p_estrato (procesar_chunk anio (c1 ++ c2))) k
           + (if decide (estrato_de r = Some k) then 1 else 0).
Proof.
  intros Hr.
  assert (edad_de anio r = None) as He by (unfold edad_de; by rewrite Hr).
  split_and!.
  - apply p_edades_ext. intros k. unfold edades_validas, filas_de_grupo.
    rewrite !filter_app, filter_cons, !omap_app.
    case_decide; [|done]. cbn [omap list_omap]. by rewrite He.
  - cbn [procesar_chunk p_tramos]. f_equal.
    rewrite !omap_app. cbn [omap list_omap]. by rewrite He.
  - cbn [procesar_chunk p_dependencia]. rewrite !fmap_app, !fmap_cons, He.
    rewrite !contar_si_app. unfold contar_si. by cbn [List.filter from_option].
  - cbn [procesar_chunk p_piramide]. do 2 f_equal.
    rewrite !omap_app. cbn [omap list_omap]. by rewrite He.
  - intros k. cbn [procesar_chunk p_estrato]. rewrite !cuenta_contar.
    rewrite !omap_app, !ocurrencias_app. cbn [omap list_omap].
    destruct (estrato_de r) as [e|].
    + rewrite ocurrencias_cons.
      destruct (decide (k = e)) as [->|Hne].
      * rewrite decide_True by done. lia.
      * rewrite decide_False by congruence. lia.
    + rewrite decide_False by done. lia.
Qed.

Lemma fila_sin_edad_witness :
  p_edades (procesar_chunk 2025 (take 3 Ejemplos.escenario
                                 ++ Ejemplos.fila "3000" "1000" None "A" "F" :: []))
  = p_edades (procesar_chunk 2025 (take 3 Ejemplos.escenario ++ [])).
Proof.
  refine (proj1 (fila_sin_edad 2025 (take 3 Ejemplos.escenario) []
                   (Ejemplos.fila "3000" "1000" None "A" "F") _)).
  reflexivity.
Defined.

(** ** The order of the age groups on the chart *)

Section OrdenGrupos.
Import Grafico.
Implicit Types (x : string) (e : Z) (ks : list (string * Z)).

Lemma clave_tabla (k : Z) :
  0 ≤ k < 18 →
  clave_grupo (String.append (py_str (k * 5)) (String.append "-" (py_str (k * 5 + 4))))
  = Some (k * 5).
Proof.
  intros Hk.
  assert (k = 0 ∨ k = 1 ∨ k = 2 ∨ k = 3 ∨ k = 4 ∨ k = 5 ∨ k = 6 ∨ k = 7 ∨ k = 8
          ∨ k = 9 ∨ k = 10 ∨ k = 11 ∨ k = 12 ∨ k = 13 ∨ k = 14 ∨ k = 15
          ∨ k = 16 ∨ k = 17) as Hcases by lia.
  repeat (destruct Hcases as [->|Hcases]; [reflexivity|]). by subst.
Qed.

Lemma clave_de_etiqueta e x :
  clasificar_grupo_5anios (Some e) = Some x →
  clave_grupo x = Some (Z.min (e / 5 * 5) 90) ∧ 0 ≤ e.
Proof.
  unfold clasificar_grupo_5anios.
  destruct (e <? 0) eqn:H0; [done|]. apply Z.ltb_ge in H0.
  destruct (e >=? 90) eqn:H90.
  - intros [= <-]. assert (90 ≤ e) by lia. split; [|done].
    assert (18 ≤ e / 5) by (apply Z.div_le_lower_bound; lia).
    rewrite Z.min_r by lia. reflexivity.
  - intros [= <-]. assert (e < 90) by lia. split; [|done].
    assert (0 ≤ e / 5 < 18)
      by (split; [apply Z.div_pos; lia | apply Z.div_lt_upper_bound; lia]).
    rewrite clave_tabla by done. f_equal. lia.
Qed.

Lemma etiqueta_90 e x :
  clasificar_grupo_5anios (Some e) = Some x → clave_grupo x = Some 90 → x = "90+"%string.
Proof.
  intros Hx Hk. destruct (clave_de_etiqueta e x Hx) as [Hk' He].
  rewrite Hk in Hk'. injection Hk' as Hmin.
  unfold clasificar_grupo_5anios in Hx.
  rewrite (proj2 (Z.ltb_ge e 0)) in Hx by lia.
  destruct (e >=? 90) eqn:H90; [by injection Hx as <-|].
  assert (e / 5 < 18) by (apply Z.div_lt_upper_bound; lia). lia.
Qed.

Lemma insertar_por_clave_Permutation (p : string * Z) ks :
  insertar_por_clave p ks ≡ₚ p :: ks.
Proof.
  induction ks as [|q ks IH]; simpl; [done|].
  case_match; [|done]. rewrite IH. apply Permutation_swap.
Qed.

Lemma ordenar_por_clave_Permutation ks : foldr insertar_por_clave [] ks ≡ₚ ks.
Proof.
  induction ks as [|p ks IH]; simpl; [done|].
  by rewrite insertar_por_clave_Permutation, IH.
Qed.

Lemma insertar_por_clave_sorted (p : string * Z) ks :
  StronglySorted (λ a b : string * Z, a.2 ≤ b.2) ks →
  StronglySorted (λ a b : string * Z, a.2 ≤ b.2) (insertar_por_clave p ks).
Proof.
  induction 1 as [|q ks Hks IH Hq]; simpl.
  - repeat constructor.
  - destruct (q.2 <? p.2) eqn:Hqp.
    + apply Z.ltb_lt in Hqp. constructor; [done|].
      rewrite insertar_por_clave_Permutation. constructor; [lia | done].
    + apply Z.ltb_ge in Hqp. constructor; [by constructor|].
      constructor; [done|]. eapply Forall_impl; [exact Hq|]. intros z Hz. simpl in *. lia.
Qed.

Lemma ordenar_por_clave_sorted ks :
  StronglySorted (λ a b : string * Z, a.2 ≤ b.2) (foldr insertar_por_clave [] ks).
Proof.
  induction ks as [|p ks IH]; simpl; [constructor|]. by apply insertar_por_clave_sorted.
Qed.

Lemma sorted_por_clave ks :
  Forall (λ p, clave_grupo p.1 = Some p.2) ks →
  StronglySorted (λ a b : string * Z, a.2 ≤ b.2) ks →
  StronglySorted
    (λ a b, ∃ ka kb, clave_grupo a = Some ka ∧ clave_grupo b = Some kb ∧ ka ≤ kb) ks.*1.
Proof.
  intros Hall Hs. induction Hs as [|p ks Hks IH Hp]; [constructor|].
  apply Forall_cons in Hall as [Hp1 Hall]. rewrite fmap_cons.
  constructor; [by apply IH|]. apply Forall_fmap, Forall_forall. intros q Hq.
  rewrite Forall_forall in Hp, Hall. exists p.2, q.2. cbn.
  split_and!; [done | by apply Hall | by apply Hp].
Qed.

End OrdenGrupos.

(** X15: the sort key of the chart recovers, from the label the
    quinquennial classifier gives to an age, the lower bound of its group
    (90 for "90+"); it therefore grows with the age. *)
Theorem clave_de_grupo (e1 e2 : Z) (x1 x2 : string) :
  clasificar_grupo_5anios (Some e1) = Some x1 →
  clasificar_grupo_5anios (Some e2) = Some x2 →
  Grafico.clave_grupo x1 = Some (Z.min (e1 / 5 * 5) 90)
  ∧ (e1 ≤ e2 →
     ∃ k1 k2, Grafico.clave_grupo x1 = Some k1 ∧ Grafico.clave_grupo x2 = Some k2 ∧ k1 ≤ k2).
Proof.
  intros H1 H2.
  destruct (clave_de_etiqueta e1 x1 H1) as [Hk1 He1].
  destruct (clave_de_etiqueta e2 x2 H2) as [Hk2 He2].
  split; [done|]. intros Hle. eexists _, _. split_and!; [done..|].
  assert (e1 / 5 ≤ e2 / 5) by (apply Z.div_le_mono; lia). lia.
Qed.

Lemma clave_de_grupo_witness :
  Grafico.clave_grupo "85-89" = Some (Z.min (89 / 5 * 5) 90)
  ∧ (89 ≤ 90 →
     ∃ k1 k2, Grafico.clave_grupo "85-89" = Some k1
              ∧ Grafico.clave_grupo "90+" = Some k2 ∧ k1 ≤ k2).
Proof.
  apply (clave_de_grupo 89 90 "85-89" "90+"); reflexivity.
Defined.

Lemma mapM_claves (indice : list string) (ks : list (string * Z)) :
  mapM (λ x, (λ k, (x, k)) <$> Grafico.clave_grupo x) indice = Some ks →
  ks.*1 = indice ∧ Forall (λ p, Grafico.clave_grupo p.1 = Some p.2) ks.
Proof.
  intros Hm. apply mapM_Some_1 in Hm.
  induction Hm as [|x p indice ks Hx _ [IH1 IH2]]; [by split|].
  destruct (Grafico.clave_grupo x) as [k|] eqn:Hk; [|done].
  injection Hx as <-. rewrite fmap_cons, IH1. split; [done|]. by constructor.
Qed.

(** X16: for an index made of labels of the quinquennial classifier, the
    groups of the chart are the labels of the index in non-decreasing
    order of the lower bound of their group; "90+", when present, comes
    last. *)
Theorem grupos_ordenados (indice : list string) :
  Forall (λ x, ∃ e, clasificar_grupo_5anios (Some e) = Some x) indice →
  ∃ l, Grafico.grupos indice = Some l
       ∧ l ≡ₚ indice
       ∧ StronglySorted
           (λ a b, ∃ ka kb, Grafico.clave_grupo a = Some ka
                            ∧ Grafico.clave_grupo b = Some kb ∧ ka ≤ kb) l
       ∧ ("90+"%string ∈ indice → last l = Some "90+"%string).
Proof.
  intros Hall. unfold Grafico.grupos.
  destruct (mapM (λ x, (λ k, (x, k)) <$> Grafico.clave_grupo x) indice) as [ks|] eqn:Hm.
  2: { assert (is_Some (mapM (λ x, (λ k, (x, k)) <$> Grafico.clave_grupo x) indice)) as [? Hs].
       { apply mapM_is_Some_2. eapply Forall_impl; [exact Hall|].
         intros x [e Hx]. destruct (clave_de_etiqueta e x Hx) as [Hk _].
         cbn. rewrite Hk. by eexists. }
       by rewrite Hs in Hm. }
  destruct (mapM_claves indice ks Hm) as [Hfst Hks].
  cbn [fmap option_fmap option_map].
  set (l := (foldr Grafico.insertar_por_clave [] ks).*1).
  assert (l ≡ₚ indice) as Hp.
  { unfold l. by rewrite ordenar_por_clave_Permutation, Hfst. }
  assert (StronglySorted
            (λ a b, ∃ ka kb, Grafico.clave_grupo a = Some ka
                             ∧ Grafico.clave_grupo b = Some kb ∧ ka ≤ kb) l) as Hs.
  { apply sorted_por_clave; [|apply ordenar_por_clave_sorted].
    by rewrite ordenar_por_clave_Permutation. }
  exists l. split_and!; [done..|].
  intros H90. rewrite <- Hp in H90.
  destruct (last l) as [z|] eqn:Hlast; [|apply last_None in Hlast; rewrite Hlast in H90;
                                          by apply elem_of_nil in H90].
  f_equal. apply last_Some in Hlast as [l' Hl']. rewrite Hl' in H90, Hs.
  apply elem_of_app in H90 as [Hin|Hin]; [|by apply list_elem_of_singleton in Hin].
  apply StronglySorted_app in Hs as (Hcross & _ & _).
  destruct (Hcross _ z Hin ltac:(by left)) as (ka & kb & Hka & Hkb & Hle).
  vm_compute in Hka. injection Hka as <-.
  assert (z ∈ indice) as Hz by (rewrite <- Hp, Hl'; apply elem_of_app; right; by left).
  rewrite Forall_forall in Hall. destruct (Hall z Hz) as [e He].
  apply (etiqueta_90 e z He). destruct (clave_de_etiqueta e z He) as [Hk _].
  rewrite Hkb in Hk. injection Hk as ->. rewrite Hkb. f_equal. lia.
Qed.

Lemma grupos_ordenados_witness :
  ∃ l, Grafico.grupos ["90+"; "5-9"; "10-14"; "0-4"]%string = Some l
       ∧ l ≡ₚ ["90+"; "5-9"; "10-14"; "0-4"]%string.
Proof.
  destruct (grupos_ordenados ["90+"; "5-9"; "10-14"; "0-4"]%string)
    as (l & Hl & Hp & _).
  - repeat constructor; [by exists 93 | by exists 7 | by exists 12 | by exists 3].
  - exists l. split; [exact Hl | exact Hp].
Defined.

(** ** The flows of the report *)



